(** * DreamScribeAI: the in-memory store, the AI helpers and the REST handlers

    A shallow embedding of [server/storage.ts], [server/ai.ts],
    [server/routes.ts] and [shared/schema.ts].

    The server is TypeScript executed without type checking, so the records
    it stores are plain JavaScript objects: a record is a finite map from
    property names to JavaScript values, and the object spread
    [{ ...a, ...b }] is a left-biased union with [b] on the left.  The six
    [Map<number, T>] tables of [MemStorage] keep insertion order, which
    [Array.from(map.values())] exposes, so they are association lists.

    Identifiers and counters are JavaScript numbers that only ever hold
    integers; they are modelled by [Z], with which they agree throughout the
    safe-integer range. *)

From Stdlib Require Import ZArith QArith String Ascii List Lia Sorted Permutation.
From stdpp Require Import gmap strings pretty list fin_maps.

Set Warnings "-register-all".
Local Open Scope Z_scope.

(* ===================================================================== *)
(** ** JavaScript values *)
(* ===================================================================== *)

Module Js.

(** The values that flow through the server: JSON data plus [undefined] and
    [Date] objects ([VDate t] is a valid date with time value [t], in ms). *)
Inductive value : Type :=
| VUndef
| VNull
| VBool (b : bool)
| VNum (q : Q)
| VStr (s : string)
| VDate (t : Z)
| VArr (l : list value)
| VObj (m : gmap string value).

(** A plain object. *)
Abbreviation obj := (gmap string value).

Definition VInt (z : Z) : value := VNum (inject_Z z).

(** ToBoolean. *)
Definition truthy (v : value) : bool :=
  match v with
  | VUndef | VNull => false
  | VBool b => b
  | VNum q => negb (Qeq_bool q 0)
  | VStr s => match s with EmptyString => false | String _ _ => true end
  | VDate _ | VArr _ | VObj _ => true
  end.

(** [a || b]. *)
Definition js_or (a b : value) : value := if truthy a then a else b.

(** [===] on primitives.  Dates, arrays and objects compare by reference;
    two values of this model never share a reference, so they are unequal. *)
Definition strict_eq (a b : value) : bool :=
  match a, b with
  | VUndef, VUndef => true
  | VNull, VNull => true
  | VBool x, VBool y => Bool.eqb x y
  | VNum x, VNum y => Qeq_bool x y
  | VStr x, VStr y => String.eqb x y
  | _, _ => false
  end.

(** [o.k] on a stored record: a missing property reads as [undefined]. *)
Definition field (o : obj) (k : string) : value := default VUndef (o !! k).

(** The own enumerable properties copied by [{ ...v }]: those of an object,
    the indices of an array or of a string, nothing for the other values. *)
Definition spread (v : value) : obj :=
  match v with
  | VObj m => m
  | VArr l => list_to_map (imap (fun i x => (pretty i, x)) l)
  | VStr s =>
      list_to_map
        (imap (fun i c => (pretty i, VStr (String c EmptyString)))
              (list_ascii_of_string s))
  | _ => ∅
  end.

(** The integer a number denotes, when it is one: the only numbers that can
    hit a key of the store's maps. *)
Definition as_key (v : value) : option Z :=
  match v with
  | VNum q =>
      if Z.eqb (Qnum q mod Zpos (Qden q)) 0
      then Some (Qnum q / Zpos (Qden q)) else None
  | _ => None
  end.

(** *** Exceptions *)

Inductive exn : Type := TypeError | SyntaxError | ZodError.

Inductive result (A : Type) : Type :=
| Ok (a : A)
| Throw (e : exn).
Arguments Ok {A} a.
Arguments Throw {A} e.

(** [v.k] for an identifier [k]: a TypeError on [undefined] and [null]. *)
Definition get_prop (v : value) (k : string) : result value :=
  match v with
  | VUndef | VNull => Throw TypeError
  | VObj m => Ok (field m k)
  | VArr l =>
      if String.eqb k "length" then Ok (VInt (Z.of_nat (length l)))
      else Ok VUndef
  | VStr s =>
      if String.eqb k "length" then Ok (VInt (Z.of_nat (String.length s)))
      else Ok VUndef
  | VBool _ | VNum _ | VDate _ => Ok VUndef
  end.

(** [v[i]]. *)
Definition get_index (v : value) (i : nat) : result value :=
  match v with
  | VUndef | VNull => Throw TypeError
  | VObj m => Ok (field m (pretty i))
  | VArr l => Ok (nth i l VUndef)
  | VStr s =>
      match String.get i s with
      | Some c => Ok (VStr (String c EmptyString))
      | None => Ok VUndef
      end
  | VBool _ | VNum _ | VDate _ => Ok VUndef
  end.

(** *** Built-ins of the runtime

    The parts of the JavaScript runtime whose full behaviour lies outside
    the repository are taken as an interface; every theorem holds for every
    implementation of it. *)
Class Runtime : Type := {
  (** [parseInt(v)]; [None] is NaN. *)
  parseInt : value -> option Z;
  (** [JSON.parse(s)]; [None] is a SyntaxError. *)
  JSON_parse : string -> option value;
  (** [new Date(v).getTime()] for a [v] that is not a Date; [None] is NaN. *)
  Date_time : value -> option Z;
  (** [s.trim()]. *)
  String_trim : string -> string;
  (** String conversion inside a template literal. *)
  ToString : value -> string
}.

(** [new Date(v).getTime()]. *)
Definition getTime `{Runtime} (v : value) : option Z :=
  match v with
  | VDate t => Some t
  | _ => Date_time v
  end.

(** [x - y] on numbers that may be NaN. *)
Definition num_sub (x y : option Z) : option Z :=
  match x, y with
  | Some a, Some b => Some (a - b)
  | _, _ => None
  end.

(** *** Arrays *)

(** [Array.prototype.sort(cmp)].  The sort is stable, and a comparator
    result that is NaN counts as 0.  For a consistent comparator the result
    is the one stable sorted arrangement, computed here by insertion; for an
    inconsistent one the language leaves the order to the engine. *)
Section Sort.
Context {A : Type} (cmp : A -> A -> option Z).

Definition comes_after (x y : A) : bool :=
  match cmp x y with
  | Some d => 0 <? d
  | None => false
  end.

Fixpoint insert_sorted (x : A) (l : list A) : list A :=
  match l with
  | [] => [x]
  | y :: l' =>
      if comes_after x y then y :: insert_sorted x l' else x :: y :: l'
  end.

Definition js_sort (l : list A) : list A := foldr insert_sorted [] l.

End Sort.

(** [l.slice(0, n)] for an integer [n]: a negative [n] counts from the end. *)
Definition slice0 {A : Type} (l : list A) (n : Z) : list A :=
  if n <? 0
  then firstn (Z.to_nat (Z.max 0 (Z.of_nat (length l) + n))) l
  else firstn (Z.to_nat n) l.

(** [l.slice(-n)] for a positive [n]: the last [n] elements. *)
Definition slice_last {A : Type} (n : nat) (l : list A) : list A :=
  skipn (length l - n)%nat l.

(** *** [Map<number, T>]: insertion-ordered, keys compared as numbers *)

Definition JsMap (T : Type) : Type := list (Z * T).

Fixpoint map_get {T : Type} (m : JsMap T) (k : Z) : option T :=
  match m with
  | [] => None
  | (k', v) :: m' => if Z.eqb k' k then Some v else map_get m' k
  end.

Definition map_has {T : Type} (m : JsMap T) (k : Z) : bool :=
  match map_get m k with Some _ => true | None => false end.

(** [m.set(k, v)]: an existing key keeps its place, a new one goes last. *)
Fixpoint map_set {T : Type} (m : JsMap T) (k : Z) (v : T) : JsMap T :=
  match m with
  | [] => [(k, v)]
  | (k', v') :: m' =>
      if Z.eqb k' k then (k, v) :: m' else (k', v') :: map_set m' k v
  end.

(** [m.delete(k)]: the map without [k], and whether [k] was present. *)
Definition map_delete {T : Type} (m : JsMap T) (k : Z) : JsMap T * bool :=
  (List.filter (fun e => negb (Z.eqb (fst e) k)) m, map_has m k).

(** [Array.from(m.values())]. *)
Definition map_values {T : Type} (m : JsMap T) : list T := List.map snd m.

Definition map_keys {T : Type} (m : JsMap T) : list Z := List.map fst m.

End Js.
Export Js.

(* ===================================================================== *)
(** ** shared/schema.ts: tables and insert schemas *)
(* ===================================================================== *)

Module Schema.

Inductive ColType : Type :=
  TSerial | TInteger | TText | TBoolean | TJsonb | TTimestamp.

Record Column : Type := {
  col_name : string;
  col_type : ColType;
  col_notNull : bool;
  col_hasDefault : bool
}.

Definition column (n : string) (t : ColType) (notNull hasDefault : bool) :=
  {| col_name := n; col_type := t;
     col_notNull := notNull; col_hasDefault := hasDefault |}.

Definition users : list Column :=
  [ column "id" TSerial true true;
    column "username" TText true false;
    column "password" TText true false ].

Definition worlds : list Column :=
  [ column "id" TSerial true true;
    column "userId" TInteger true false;
    column "name" TText true false;
    column "description" TText true false;
    column "createdAt" TTimestamp true true ].

Definition characters : list Column :=
  [ column "id" TSerial true true;
    column "worldId" TInteger true false;
    column "name" TText true false;
    column "role" TText true false;
    column "appearance" TText false false;
    column "personality" TText true false;
    column "backstory" TText false false;
    column "memory" TJsonb true true;
    column "createdAt" TTimestamp true true ].

Definition scenes : list Column :=
  [ column "id" TSerial true true;
    column "worldId" TInteger true false;
    column "title" TText true false;
    column "content" TText true false;
    column "styleType" TText false false;
    column "tone" TText false false;
    column "includedCharacters" TJsonb true true;
    column "createdAt" TTimestamp true true ].

Definition chatMessages : list Column :=
  [ column "id" TSerial true true;
    column "characterId" TInteger true false;
    column "userId" TInteger true false;
    column "isUserMessage" TBoolean true false;
    column "content" TText true false;
    column "createdAt" TTimestamp true true ].

Definition activityLogs : list Column :=
  [ column "id" TSerial true true;
    column "worldId" TInteger true false;
    column "activityType" TText true false;
    column "entityId" TInteger false false;
    column "description" TText true false;
    column "createdAt" TTimestamp true true ].

(** [createInsertSchema(table).pick({ k: true, ... })]. *)
Definition pick (names : list string) (table : list Column) : list Column :=
  List.filter
    (fun c => existsb (String.eqb (col_name c)) names) table.

Definition insertUserSchema := pick ["username"; "password"] users.
Definition insertWorldSchema := pick ["userId"; "name"; "description"] worlds.
Definition insertCharacterSchema :=
  pick ["worldId"; "name"; "role"; "appearance"; "personality"; "backstory";
        "memory"] characters.
Definition insertSceneSchema :=
  pick ["worldId"; "title"; "content"; "styleType"; "tone";
        "includedCharacters"] scenes.
Definition insertChatMessageSchema :=
  pick ["characterId"; "userId"; "isUserMessage"; "content"] chatMessages.
Definition insertActivityLogSchema :=
  pick ["worldId"; "activityType"; "entityId"; "description"] activityLogs.

(** Validation by the zod schema that drizzle-zod derives from a column, as
    those libraries document it: a column that may be null becomes nullable
    and optional, a column with a default becomes optional, any other is
    required; a json column takes every JSON value, null included. *)
Definition has_type (t : ColType) (v : value) : bool :=
  match t, v with
  | (TSerial | TInteger), VNum _ => true
  | TText, VStr _ => true
  | TBoolean, VBool _ => true
  | TTimestamp, VDate _ => true
  | TJsonb, (VNull | VBool _ | VNum _ | VStr _ | VArr _ | VObj _) => true
  | _, _ => false
  end.

Definition required (c : Column) : bool :=
  col_notNull c && negb (col_hasDefault c).

(** The outcome for one key: [None] is a validation error, [Some None]
    leaves the key out of the result. *)
Definition check_column (c : Column) (v : option value)
  : option (option value) :=
  match v with
  | None => if required c then None else Some None
  | Some VUndef => if required c then None else Some (Some VUndef)
  | Some VNull =>
      if negb (col_notNull c) || has_type (col_type c) VNull
      then Some (Some VNull) else None
  | Some v => if has_type (col_type c) v then Some (Some v) else None
  end.

Fixpoint parse_columns (cols : list Column) (input : obj) : option obj :=
  match cols with
  | [] => Some ∅
  | c :: cs =>
      match check_column c (input !! col_name c), parse_columns cs input with
      | Some r, Some out =>
          Some (match r with
                | Some v => <[col_name c := v]> out
                | None => out
                end)
      | _, _ => None
      end
  end.

(** [schema.parse(input)]: unknown keys are stripped; anything that is not an
    object is refused.  [Throw ZodError] is the validation error. *)
Definition parse (schema : list Column) (input : value) : result obj :=
  match input with
  | VObj m =>
      match parse_columns schema m with
      | Some out => Ok out
      | None => Throw ZodError
      end
  | _ => Throw ZodError
  end.

End Schema.

(* ===================================================================== *)
(** ** server/storage.ts: MemStorage *)
(* ===================================================================== *)

Module Storage.

Record MemStorage : Type := {
  users : JsMap obj;
  worlds : JsMap obj;
  characters : JsMap obj;
  scenes : JsMap obj;
  chatMessages : JsMap obj;
  activityLogs : JsMap obj;
  userIdCounter : Z;
  worldIdCounter : Z;
  characterIdCounter : Z;
  sceneIdCounter : Z;
  chatMessageIdCounter : Z;
  activityLogIdCounter : Z
}.

(** The six entity types; [table] and [counter] select the map and the
    counter of one of them. *)
Inductive Entity : Type :=
  User | World | Character | Scene | ChatMessage | ActivityLog.

Definition table (e : Entity) (s : MemStorage) : JsMap obj :=
  match e with
  | User => users s
  | World => worlds s
  | Character => characters s
  | Scene => scenes s
  | ChatMessage => chatMessages s
  | ActivityLog => activityLogs s
  end.

Definition counter (e : Entity) (s : MemStorage) : Z :=
  match e with
  | User => userIdCounter s
  | World => worldIdCounter s
  | Character => characterIdCounter s
  | Scene => sceneIdCounter s
  | ChatMessage => chatMessageIdCounter s
  | ActivityLog => activityLogIdCounter s
  end.

(** Assignment to one field of [this]. *)
Definition set_table (e : Entity) (m : JsMap obj) (s : MemStorage)
  : MemStorage :=
  {| users := match e with User => m | _ => users s end;
     worlds := match e with World => m | _ => worlds s end;
     characters := match e with Character => m | _ => characters s end;
     scenes := match e with Scene => m | _ => scenes s end;
     chatMessages := match e with ChatMessage => m | _ => chatMessages s end;
     activityLogs := match e with ActivityLog => m | _ => activityLogs s end;
     userIdCounter := userIdCounter s;
     worldIdCounter := worldIdCounter s;
     characterIdCounter := characterIdCounter s;
     sceneIdCounter := sceneIdCounter s;
     chatMessageIdCounter := chatMessageIdCounter s;
     activityLogIdCounter := activityLogIdCounter s |}.

Definition set_counter (e : Entity) (c : Z) (s : MemStorage) : MemStorage :=
  {| users := users s;
     worlds := worlds s;
     characters := characters s;
     scenes := scenes s;
     chatMessages := chatMessages s;
     activityLogs := activityLogs s;
     userIdCounter := match e with User => c | _ => userIdCounter s end;
     worldIdCounter := match e with World => c | _ => worldIdCounter s end;
     characterIdCounter :=
       match e with Character => c | _ => characterIdCounter s end;
     sceneIdCounter := match e with Scene => c | _ => sceneIdCounter s end;
     chatMessageIdCounter :=
       match e with ChatMessage => c | _ => chatMessageIdCounter s end;
     activityLogIdCounter :=
       match e with ActivityLog => c | _ => activityLogIdCounter s end |}.

Section Operations.
Context `{Runtime}.

(** The comparators handed to [sort]. *)
Definition newest_first (a b : obj) : option Z :=
  num_sub (getTime (field b "createdAt")) (getTime (field a "createdAt")).

Definition oldest_first (a b : obj) : option Z :=
  num_sub (getTime (field a "createdAt")) (getTime (field b "createdAt")).

(** *** Users *)

Definition getUser (s : MemStorage) (id : Z) : option obj :=
  map_get (users s) id.

Definition getUserByUsername (s : MemStorage) (username : string)
  : option obj :=
  List.find (fun user => strict_eq (field user "username") (VStr username))
            (map_values (users s)).

Definition createUser (s : MemStorage) (insertUser : obj)
  : MemStorage * obj :=
  let id := userIdCounter s in
  let s := set_counter User (id + 1) s in
  let user := <["id" := VInt id]> insertUser in
  (set_table User (map_set (users s) id user) s, user).

(** *** Worlds *)

Definition getWorld (s : MemStorage) (id : Z) : option obj :=
  map_get (worlds s) id.

Definition getWorldsByUser (s : MemStorage) (userId : value) : list obj :=
  List.filter (fun world => strict_eq (field world "userId") userId)
              (map_values (worlds s)).

Definition createWorld (s : MemStorage) (now : Z) (insertWorld : obj)
  : MemStorage * obj :=
  let id := worldIdCounter s in
  let s := set_counter World (id + 1) s in
  let world := <["createdAt" := VDate now]> (<["id" := VInt id]> insertWorld) in
  (set_table World (map_set (worlds s) id world) s, world).

Definition updateWorld (s : MemStorage) (id : Z) (data : obj)
  : MemStorage * option obj :=
  match map_get (worlds s) id with
  | None => (s, None)
  | Some world =>
      let updatedWorld := data ∪ world in
      (set_table World (map_set (worlds s) id updatedWorld) s,
       Some updatedWorld)
  end.

Definition deleteWorld (s : MemStorage) (id : Z) : MemStorage * bool :=
  let (m, found) := map_delete (worlds s) id in
  (set_table World m s, found).

(** *** Characters *)

Definition getCharacter (s : MemStorage) (id : Z) : option obj :=
  map_get (characters s) id.

Definition getCharactersByWorld (s : MemStorage) (worldId : value)
  : list obj :=
  List.filter (fun char => strict_eq (field char "worldId") worldId)
              (map_values (characters s)).

Definition createCharacter (s : MemStorage) (now : Z) (insertCharacter : obj)
  : MemStorage * obj :=
  let id := characterIdCounter s in
  let s := set_counter Character (id + 1) s in
  let character :=
    <["createdAt" := VDate now]> (<["id" := VInt id]> insertCharacter) in
  (set_table Character (map_set (characters s) id character) s, character).

Definition updateCharacter (s : MemStorage) (id : Z) (data : obj)
  : MemStorage * option obj :=
  match map_get (characters s) id with
  | None => (s, None)
  | Some character =>
      let updatedCharacter := data ∪ character in
      (set_table Character (map_set (characters s) id updatedCharacter) s,
       Some updatedCharacter)
  end.

Definition updateCharacterMemory (s : MemStorage) (id : Z) (memory : value)
  : MemStorage * option obj :=
  match map_get (characters s) id with
  | None => (s, None)
  | Some character =>
      let updatedCharacter := <["memory" := memory]> character in
      (set_table Character (map_set (characters s) id updatedCharacter) s,
       Some updatedCharacter)
  end.

Definition deleteCharacter (s : MemStorage) (id : Z) : MemStorage * bool :=
  let (m, found) := map_delete (characters s) id in
  (set_table Character m s, found).

(** *** Scenes *)

Definition getScene (s : MemStorage) (id : Z) : option obj :=
  map_get (scenes s) id.

Definition getScenesByWorld (s : MemStorage) (worldId : value) : list obj :=
  js_sort newest_first
    (List.filter (fun scene => strict_eq (field scene "worldId") worldId)
                 (map_values (scenes s))).

Definition createScene (s : MemStorage) (now : Z) (insertScene : obj)
  : MemStorage * obj :=
  let id := sceneIdCounter s in
  let s := set_counter Scene (id + 1) s in
  let scene := <["createdAt" := VDate now]> (<["id" := VInt id]> insertScene) in
  (set_table Scene (map_set (scenes s) id scene) s, scene).

Definition updateScene (s : MemStorage) (id : Z) (data : obj)
  : MemStorage * option obj :=
  match map_get (scenes s) id with
  | None => (s, None)
  | Some scene =>
      let updatedScene := data ∪ scene in
      (set_table Scene (map_set (scenes s) id updatedScene) s,
       Some updatedScene)
  end.

Definition deleteScene (s : MemStorage) (id : Z) : MemStorage * bool :=
  let (m, found) := map_delete (scenes s) id in
  (set_table Scene m s, found).

(** *** Chat messages *)

Definition getChatMessagesByCharacter (s : MemStorage) (characterId : value)
  : list obj :=
  js_sort oldest_first
    (List.filter (fun msg => strict_eq (field msg "characterId") characterId)
                 (map_values (chatMessages s))).

Definition createChatMessage (s : MemStorage) (now : Z) (insertMessage : obj)
  : MemStorage * obj :=
  let id := chatMessageIdCounter s in
  let s := set_counter ChatMessage (id + 1) s in
  let message :=
    <["createdAt" := VDate now]> (<["id" := VInt id]> insertMessage) in
  (set_table ChatMessage (map_set (chatMessages s) id message) s, message).

(** *** Activity logs *)

(** [limit] is [undefined] or a number; NaN fails the test [if (limit)] just
    as [undefined] does, so [None] stands for both. *)
Definition getActivityLogsByWorld (s : MemStorage) (worldId : value)
    (limit : option Z) : list obj :=
  let logs :=
    js_sort newest_first
      (List.filter (fun log => strict_eq (field log "worldId") worldId)
                   (map_values (activityLogs s))) in
  match limit with
  | Some n => if Z.eqb n 0 then logs else slice0 logs n
  | None => logs
  end.

Definition createActivityLog (s : MemStorage) (now : Z) (insertLog : obj)
  : MemStorage * obj :=
  let id := activityLogIdCounter s in
  let s := set_counter ActivityLog (id + 1) s in
  let log := <["createdAt" := VDate now]> (<["id" := VInt id]> insertLog) in
  (set_table ActivityLog (map_set (activityLogs s) id log) s, log).

End Operations.

(** *** Demo data *)

Definition dq : string := String "034"%char EmptyString.
Definition nl : string := String "010"%char EmptyString.

(** An object literal without repeated keys. *)
Definition object (props : list (string * value)) : obj := list_to_map props.

Definition days (n : Z) : Z := n * 24 * 60 * 60 * 1000.

Definition memory_event (type content : string) : value :=
  VObj (object [("type", VStr type); ("content", VStr content)]).

(** [initDemoData()].  [clock k] is the reading of the [k]-th call of
    [Date.now()], counted from 0. *)
Definition initDemoData (clock : nat -> Z) (s : MemStorage) : MemStorage :=
  let demoUser_id := userIdCounter s in
  let s := set_counter User (demoUser_id + 1) s in
  let demoUser := object
    [ ("id", VInt demoUser_id);
      ("username", VStr "demouser");
      ("password", VStr "password") ] in
  let s := set_table User (map_set (users s) demoUser_id demoUser) s in
  let etherealIsles_id := worldIdCounter s in
  let s := set_counter World (etherealIsles_id + 1) s in
  let etherealIsles := object
    [ ("id", VInt etherealIsles_id);
      ("userId", field demoUser "id");
      ("name", VStr "Ethereal Isles");
      ("description", VStr
        ("A realm of floating islands connected by magical bridges, where "
        +:+ "gravity is a suggestion and dragons soar between crystal formations."));
      ("createdAt", VDate (clock 0%nat - days 15)) ] in
  let s := set_table World (map_set (worlds s) etherealIsles_id etherealIsles) s in
  let neonDistrict_id := worldIdCounter s in
  let s := set_counter World (neonDistrict_id + 1) s in
  let neonDistrict := object
    [ ("id", VInt neonDistrict_id);
      ("userId", field demoUser "id");
      ("name", VStr "Neon District");
      ("description", VStr
        ("A sprawling metropolis where corporations rule and hackers are "
        +:+ "the new pirates, sailing the digital seas in search of valuable "
        +:+ "data."));
      ("createdAt", VDate (clock 1%nat - days 10)) ] in
  let s := set_table World (map_set (worlds s) neonDistrict_id neonDistrict) s in
  let corsairsRealm_id := worldIdCounter s in
  let s := set_counter World (corsairsRealm_id + 1) s in
  let corsairsRealm := object
    [ ("id", VInt corsairsRealm_id);
      ("userId", field demoUser "id");
      ("name", VStr "Corsair's Realm");
      ("description", VStr
        ("A world of endless oceans and uncharted islands, where pirate "
        +:+ "crews battle for treasure and naval powers fight for control "
        +:+ "of the seas."));
      ("createdAt", VDate (clock 2%nat - days 5)) ] in
  let s := set_table World (map_set (worlds s) corsairsRealm_id corsairsRealm) s in
  let lyra_id := characterIdCounter s in
  let s := set_counter Character (lyra_id + 1) s in
  let lyra := object
    [ ("id", VInt lyra_id);
      ("worldId", field etherealIsles "id");
      ("name", VStr "Lyra Nightshade");
      ("role", VStr "Rogue Elf");
      ("appearance", VStr
        ("A tall elven woman with silver hair and violet eyes. Dressed "
        +:+ "in dark leather with a cloak that seems to shift colors in the "
        +:+ "light."));
      ("personality", VStr
        ("Cunning, distrustful, and witty. Values freedom above all else "
        +:+ "and has a soft spot for underdogs despite her tough exterior."));
      ("backstory", VStr
        ("Raised in the floating forest settlements, Lyra turned to thievery "
        +:+ "after her home was destroyed by crystal miners. Now she steals "
        +:+ "magical artifacts from the wealthy and powerful."));
      ("memory", VObj (object
        [ ("interactions", VInt 24);
          ("events", VArr
            [ memory_event "background"
             ("Master thief with a mysterious past, known for stealing magical "
               +:+ "artifacts without leaving a trace");
           memory_event "knowledge"
             "Knows the secret passages of the Crystal Tower";
           memory_event "relationship"
             "Distrusts authority figures, especially the Skyguard" ]) ]));
      ("createdAt", VDate (clock 3%nat - days 14)) ] in
  let s := set_table Character (map_set (characters s) lyra_id lyra) s in
  let cipher_id := characterIdCounter s in
  let s := set_counter Character (cipher_id + 1) s in
  let cipher := object
    [ ("id", VInt cipher_id);
      ("worldId", field neonDistrict "id");
      ("name", VStr "Cipher_9");
      ("role", VStr "Netrunner");
      ("appearance", VStr
        ("Slender figure with cybernetic implants visible along the temples. "
        +:+ "Often wears a reflective visor and dark clothing with glowing "
        +:+ "circuit patterns."));
      ("personality", VStr
        ("Analytical, paranoid, and brilliant. Speaks in technical jargon "
        +:+ "and views the world as a system to be hacked."));
      ("backstory", VStr
        ("Former corporate programmer who discovered dark secrets in the "
        +:+ "code and went rogue. Now sells information to the highest bidder "
        +:+ "while avoiding corporate hunters."));
      ("memory", VObj (object
        [ ("interactions", VInt 15);
          ("events", VArr
            [ memory_event "background"
             ("Legendary hacker who can breach any system, has illegal neural "
               +:+ "implants");
           memory_event "knowledge"
             "Knows about the backdoor into MegaTech's mainframe";
           memory_event "relationship"
             "Has a grudge against Director Chen of CyberSec Division" ]) ]));
      ("createdAt", VDate (clock 4%nat - days 9)) ] in
  let s := set_table Character (map_set (characters s) cipher_id cipher) s in
  let blackthorne_id := characterIdCounter s in
  let s := set_counter Character (blackthorne_id + 1) s in
  let blackthorne := object
    [ ("id", VInt blackthorne_id);
      ("worldId", field corsairsRealm "id");
      ("name", VStr "Capt. Blackthorne");
      ("role", VStr "Pirate Captain");
      ("appearance", VStr
        ("Tall, broad-shouldered with a weather-beaten face. Has a scar "
        +:+ "across his right eye and wears a leather tricorn hat adorned "
        +:+ "with a single raven feather."));
      ("personality", VStr
        ("Bold, honorable among thieves, and superstitious. Commands loyalty "
        +:+ "through fairness rather than fear."));
      ("backstory", VStr
        ("Once a naval officer who mutinied when ordered to attack innocent "
        +:+ "merchants. Now captains The Crimson Serpent, searching for the "
        +:+ "legendary Kraken's Pearl."));
      ("memory", VObj (object
        [ ("interactions", VInt 31);
          ("events", VArr
            [ memory_event "background"
             ("Fearsome yet honorable pirate captain with a cursed ship and "
               +:+ "loyal crew");
           memory_event "possession"
             "Currently has the Kraken's Pearl hidden in his quarters";
           memory_event "goal"
             "Searching for the legendary treasure that can control the seas" ]) ]));
      ("createdAt", VDate (clock 5%nat - days 4)) ] in
  let s := set_table Character (map_set (characters s) blackthorne_id blackthorne) s in
  let krakenScene_id := sceneIdCounter s in
  let s := set_counter Scene (krakenScene_id + 1) s in
  let krakenScene := object
    [ ("id", VInt krakenScene_id);
      ("worldId", field corsairsRealm "id");
      ("title", VStr "The Kraken's Call");
      ("content", VStr
          ("Captain Blackthorne stood at the helm of The Crimson Serpent, "
           +:+ "his weathered hands gripping the wheel as the storm raged around "
           +:+ "them. Lightning split the sky, illuminating the churning waves "
           +:+ "that threatened to swallow the ship whole."
           +:+ nl
           +:+ nl
           +:+ dq
           +:+ "Cap'n!"
           +:+ dq
           +:+ " shouted Quartermaster Reed from the main deck. "
           +:+ dq
           +:+ "The men say they heard it again—the call of the Kraken!"
           +:+ dq
           +:+ nl
           +:+ nl
           +:+ "Blackthorne's scarred face remained impassive, but his knuckles "
           +:+ "whitened against the wheel. "
           +:+ dq
           +:+ "Tell them to hold steady. No creature of the deep will claim "
           +:+ "my ship this night."
           +:+ dq
           +:+ nl
           +:+ nl
           +:+ "But even as the words left his lips, he felt it—a vibration "
           +:+ "through the hull that was neither thunder nor wave. Something "
           +:+ "ancient and terrible was rising from the abyss, drawn to the "
           +:+ "legendary relic hidden in the captain's quarters."
           +:+ nl
           +:+ nl
           +:+ "The Kraken's Pearl pulsed with an eerie blue light, visible "
           +:+ "even through the locked chest where Blackthorne had secured "
           +:+ "it. The artifact was said to control the seas themselves, but "
           +:+ "at what cost?"
           +:+ nl
           +:+ nl
           +:+ "As tentacles began to emerge from the darkness below, Blackthorne "
           +:+ "made his decision. Some treasures were never meant to be claimed "
           +:+ "by mortal men..."));
      ("styleType", VStr "Novel - Descriptive");
      ("tone", VStr "Dramatic");
      ("includedCharacters", VArr [field blackthorne "id"]);
      ("createdAt", VDate (clock 6%nat - days 3)) ] in
  let s := set_table Scene (map_set (scenes s) krakenScene_id krakenScene) s in
  let activities :=
    [ object
        [ ("worldId", field etherealIsles "id");
          ("activityType", VStr "CHARACTER_CREATED");
          ("entityId", field lyra "id");
          ("description", VStr "Created character Lyra Nightshade");
          ("createdAt", VDate (clock 7%nat - days 14)) ];
      object
        [ ("worldId", field neonDistrict "id");
          ("activityType", VStr "CHARACTER_CREATED");
          ("entityId", field cipher "id");
          ("description", VStr "Created character Cipher_9");
          ("createdAt", VDate (clock 8%nat - days 9)) ];
      object
        [ ("worldId", field corsairsRealm "id");
          ("activityType", VStr "CHARACTER_CREATED");
          ("entityId", field blackthorne "id");
          ("description", VStr "Created character Capt. Blackthorne");
          ("createdAt", VDate (clock 9%nat - days 4)) ];
      object
        [ ("worldId", field corsairsRealm "id");
          ("activityType", VStr "SCENE_CREATED");
          ("entityId", field krakenScene "id");
          ("description", VStr "Created scene The Kraken's Call");
          ("createdAt", VDate (clock 10%nat - days 3)) ];
      object
        [ ("worldId", field etherealIsles "id");
          ("activityType", VStr "CHARACTER_CHAT");
          ("entityId", field lyra "id");
          ("description", VStr "Conversation with Lyra");
          ("createdAt", VDate (clock 11%nat - days 2)) ];
      object
        [ ("worldId", field etherealIsles "id");
          ("activityType", VStr "WORLD_UPDATED");
          ("entityId", field etherealIsles "id");
          ("description", VStr "Added Floating Bazaar location");
          ("createdAt", VDate (clock 12%nat - days 1)) ] ] in
  let s :=
    fold_left
      (fun s activity =>
         let id := activityLogIdCounter s in
         let s := set_counter ActivityLog (id + 1) s in
         let log := <["id" := VInt id]> activity in
         set_table ActivityLog (map_set (activityLogs s) id log) s)
      activities s in
  let demoMessages :=
    [ object
        [ ("characterId", field lyra "id");
          ("userId", field demoUser "id");
          ("isUserMessage", VBool false);
          ("content", VStr
            ("*Lyra leans against a crystal formation, twirling a small dagger "
              +:+ "between her fingers*"
              +:+ nl
              +:+ nl
              +:+ "Well, look who finally decided to show up. I was beginning to "
              +:+ "think you'd gotten lost in the lower mists again. Not many people "
              +:+ "can find me when I don't want to be found."));
          ("createdAt", VDate (clock 13%nat - days 2 - 600000)) ];
      object
        [ ("characterId", field lyra "id");
          ("userId", field demoUser "id");
          ("isUserMessage", VBool true);
          ("content", VStr
            ("I've been looking for someone with your particular skills, Lyra. "
              +:+ "They say you're the only thief who's ever infiltrated the Crystal "
              +:+ "Tower."));
          ("createdAt", VDate (clock 14%nat - days 2 - 540000)) ];
      object
        [ ("characterId", field lyra "id");
          ("userId", field demoUser "id");
          ("isUserMessage", VBool false);
          ("content", VStr
            ("*Her eyes narrow slightly, the dagger suddenly still in her "
              +:+ "hand*"
              +:+ nl
              +:+ nl
              +:+ "That's quite a reputation to have. And what if I told you those "
              +:+ "rumors were just that—rumors? Though I must admit, I'm curious "
              +:+ "what you'd want from the Tower. The Skyguard doesn't take kindly "
              +:+ "to thieves, and the magical defenses... well, let's just say "
              +:+ "they're creative in their punishments."));
          ("createdAt", VDate (clock 15%nat - days 2 - 480000)) ];
      object
        [ ("characterId", field lyra "id");
          ("userId", field demoUser "id");
          ("isUserMessage", VBool true);
          ("content", VStr
            ("I'm not interested in stealing anything. I need information. "
              +:+ "There's an ancient map hidden in the archives that could lead "
              +:+ "to something valuable—something that might interest even you."));
          ("createdAt", VDate (clock 16%nat - days 2 - 420000)) ];
      object
        [ ("characterId", field lyra "id");
          ("userId", field demoUser "id");
          ("isUserMessage", VBool false);
          ("content", VStr
            ("*Lyra laughs, a musical sound that echoes off the floating rocks "
              +:+ "around you*"
              +:+ nl
              +:+ nl
              +:+ "Information can be more valuable than gold—and often more dangerous. "
              +:+ "What makes you think I'd risk my neck for a map that might lead "
              +:+ "to something valuable? I deal in certainties, not possibilities."
              +:+ nl
              +:+ nl
              +:+ "But I'm listening. What exactly is this "
              +:+ dq
              +:+ "something valuable"
              +:+ dq
              +:+ " that has you seeking out a notorious thief?"));
          ("createdAt", VDate (clock 17%nat - days 2 - 360000)) ] ] in
  fold_left
    (fun s message =>
       let id := chatMessageIdCounter s in
       let s := set_counter ChatMessage (id + 1) s in
       let chatMessage := <["id" := VInt id]> message in
       set_table ChatMessage (map_set (chatMessages s) id chatMessage) s)
    demoMessages s.

(** [new MemStorage()]: empty maps, counters at 1, then the demo data. *)
Definition constructor (clock : nat -> Z) : MemStorage :=
  initDemoData clock
    {| users := []; worlds := []; characters := []; scenes := [];
       chatMessages := []; activityLogs := [];
       userIdCounter := 1; worldIdCounter := 1; characterIdCounter := 1;
       sceneIdCounter := 1; chatMessageIdCounter := 1;
       activityLogIdCounter := 1 |}.

End Storage.
Export Storage.

(* ===================================================================== *)
(** ** server/ai.ts: the response generator and the mood analyzer *)
(* ===================================================================== *)

Module Ai.

(** The text parts sent to the model.  Each prompt is a fixed template
    around the values interpolated into it; it is kept in that form. *)
Inductive Prompt : Type :=
| CharacterDescription (character : obj)
| MessageText (content : value)
| MoodInstruction (text : value).

(** One POST to the [generateContent] endpoint. *)
Record Request : Type := {
  req_key : string;
  req_contents : list (string * Prompt);
  req_temperature : Q;
  req_maxOutputTokens : Z
}.

(** What [await fetch(...)] followed by [await response.json()] gives. *)
Inductive FetchOutcome : Type :=
| FetchRejects
| JsonRejects
| Body (data : value).

(** The process environment and the network behind [fetch]. *)
Record Env : Type := {
  GEMINI_API_KEY : option string;
  network : Request -> FetchOutcome
}.

(** What the code does to the outside world. *)
Inductive event : Type :=
| Fetched (r : Request)
| ConsoleError (label : string).

(** A computation that may throw and that records its events. *)
Definition Eff (A : Type) : Type := result A * list event.

Definition ret {A : Type} (a : A) : Eff A := (Ok a, []).

Definition lift {A : Type} (r : result A) : Eff A := (r, []).

Definition bind {A B : Type} (m : Eff A) (k : A -> Eff B) : Eff B :=
  match m with
  | (Ok a, t) => let (r, t') := k a in (r, t ++ t')
  | (Throw e, t) => (Throw e, t)
  end.

Definition emit (e : event) : Eff unit := (Ok tt, [e]).

(** [try { m } catch (error) { h }]. *)
Definition try_catch {A : Type} (m : Eff A) (h : exn -> Eff A) : Eff A :=
  match m with
  | (Ok a, t) => (Ok a, t)
  | (Throw e, t) => let (r, t') := h e in (r, t ++ t')
  end.

Notation "x <- m ;; k" := (bind m (fun x => k))
  (at level 100, m at level 99, right associativity, only parsing).
Notation "m ;;; k" := (bind m (fun _ => k))
  (at level 100, right associativity, only parsing).

(** [!process.env.GEMINI_API_KEY] fails for a non-empty string only. *)
Definition api_key (env : Env) : option string :=
  match GEMINI_API_KEY env with
  | Some (String c k) => Some (String c k)
  | _ => None
  end.

Definition do_fetch (env : Env) (r : Request) : Eff value :=
  match network env r with
  | FetchRejects => (Throw TypeError, [Fetched r])
  | JsonRejects => (Throw SyntaxError, [Fetched r])
  | Body data => (Ok data, [Fetched r])
  end.

(** [!data.candidates || data.candidates.length === 0 ||
     !data.candidates[0].content] *)
Definition no_candidate (data : value) : Eff bool :=
  candidates <- lift (get_prop data "candidates") ;;
  if negb (truthy candidates) then ret true else
  len <- lift (get_prop candidates "length") ;;
  if strict_eq len (VInt 0) then ret true else
  first <- lift (get_index candidates 0) ;;
  content <- lift (get_prop first "content") ;;
  ret (negb (truthy content)).

(** [data.candidates[0].content.parts[0].text] *)
Definition candidate_text (data : value) : Eff value :=
  candidates <- lift (get_prop data "candidates") ;;
  first <- lift (get_index candidates 0) ;;
  content <- lift (get_prop first "content") ;;
  parts <- lift (get_prop content "parts") ;;
  part <- lift (get_index parts 0) ;;
  lift (get_prop part "text").

Definition FALLBACK : value :=
  VStr ("I seem to be having trouble finding the right words. "
        +:+ "Perhaps we can try again in a moment?").

Definition generate_request (key : string) (character : obj)
    (messages : list obj) : Request :=
  let recentMessages := slice_last 10 messages in
  let formattedMessages :=
    List.map
      (fun msg =>
         (if truthy (field msg "isUserMessage") then "user" else "assistant",
          field msg "content"))
      recentMessages in
  {| req_key := key;
     req_contents :=
       ("user", CharacterDescription character)
       :: List.map (fun msg => (fst msg, MessageText (snd msg)))
                   formattedMessages;
     req_temperature := 0.7;
     req_maxOutputTokens := 800 |}.

(** The declared result is a string; what is returned is whatever the
    response holds at [text]. *)
Definition generateCharacterResponse (env : Env) (character : obj)
    (messages : list obj) : Eff value :=
  try_catch
    (match api_key env with
     | None =>
         emit (ConsoleError "Missing GEMINI_API_KEY environment variable") ;;;
         ret FALLBACK
     | Some key =>
         data <- do_fetch env (generate_request key character messages) ;;
         failed <- no_candidate data ;;
         if failed : bool then
           emit (ConsoleError "Error generating character response:") ;;;
           ret FALLBACK
         else candidate_text data
     end)
    (fun _ =>
       emit (ConsoleError "Error generating character response:") ;;;
       ret FALLBACK).

Definition NEUTRAL : value :=
  VObj (object [ ("mood", VStr "neutral");
                 ("intensity", VNum 0.5);
                 ("dominantColor", VStr "#808080") ]).

Definition mood_request (key : string) (text : value) : Request :=
  {| req_key := key;
     req_contents := [("user", MoodInstruction text)];
     req_temperature := 0.2;
     req_maxOutputTokens := 200 |}.

(** [s.replace(/```json|```/g, '')]: every fence is dropped, scanning from
    the left; [skip] counts the characters of a fence still to drop. *)
Fixpoint strip_fences_from (skip : nat) (s : string) : string :=
  match s with
  | EmptyString => EmptyString
  | String c s' =>
      match skip with
      | S k => strip_fences_from k s'
      | O =>
          if String.prefix "```json" s then strip_fences_from 6 s'
          else if String.prefix "```" s then strip_fences_from 2 s'
          else String c (strip_fences_from 0 s')
      end
  end.

Definition strip_fences (s : string) : string := strip_fences_from 0 s.

Section Analyzer.
Context `{Runtime}.

(** [JSON.parse(textResponse.replace(/```json|```/g, '').trim())]; calling
    [replace] on anything but a string is a TypeError. *)
Definition parse_mood (textResponse : value) : Eff value :=
  match textResponse with
  | VStr s =>
      match JSON_parse (String_trim (strip_fences s)) with
      | Some moodAnalysis => ret moodAnalysis
      | None => lift (Throw SyntaxError)
      end
  | _ => lift (Throw TypeError)
  end.

Definition analyzeMoodFromText (env : Env) (text : value) : Eff value :=
  try_catch
    (match api_key env with
     | None =>
         emit (ConsoleError "Missing GEMINI_API_KEY environment variable") ;;;
         ret NEUTRAL
     | Some key =>
         data <- do_fetch env (mood_request key text) ;;
         failed <- no_candidate data ;;
         if failed : bool then
           emit (ConsoleError "Error analyzing mood:") ;;;
           ret NEUTRAL
         else
           textResponse <- candidate_text data ;;
           try_catch
             (parse_mood textResponse)
             (fun _ =>
                emit (ConsoleError "Error parsing mood analysis JSON:") ;;;
                ret NEUTRAL)
     end)
    (fun _ =>
       emit (ConsoleError "Error analyzing mood:") ;;;
       ret NEUTRAL).

End Analyzer.

(** The network calls among the events of a computation. *)
Definition fetches {A : Type} (m : Eff A) : list Request :=
  omap (fun e => match e with Fetched r => Some r | _ => None end) (snd m).

End Ai.
Export Ai.

(* ===================================================================== *)
(** ** server/routes.ts: the handlers the properties below speak about *)
(* ===================================================================== *)

Module Routes.

(** A handler answers with a status and, unless it only [send()]s, a JSON
    payload.  [res.json(v)] alone has status 200. *)
Record HttpResponse : Type := {
  status : Z;
  payload : option value
}.

Definition json (st : Z) (v : value) : HttpResponse :=
  {| status := st; payload := Some v |}.

Definition send (st : Z) : HttpResponse :=
  {| status := st; payload := None |}.

Definition message (m : string) : value := VObj (object [("message", VStr m)]).

(** [res.json(v)] for the result of a store call: [undefined] when absent. *)
Definition or_undefined (o : option obj) : value :=
  match o with
  | Some r => VObj r
  | None => VUndef
  end.

Section Handlers.
Context `{Runtime}.

(** [`${v}`] *)
Definition interpolate (v : value) : string :=
  match v with
  | VStr s => s
  | _ => ToString v
  end.

(** A path parameter run through [parseInt]; a lookup with NaN finds
    nothing. *)
Definition lookup_param (m : JsMap obj) (param : string) : option (Z * obj) :=
  match parseInt (VStr param) with
  | Some id =>
      match map_get m id with
      | Some r => Some (id, r)
      | None => None
      end
  | None => None
  end.

(** POST /api/worlds.  [t_world] and [t_log] are the clock readings of the
    two [new Date()].  The list of validation errors in the 400 payload is
    left out. *)
Definition post_worlds (s : MemStorage) (t_world t_log : Z) (body : value)
  : MemStorage * HttpResponse :=
  match Schema.parse Schema.insertWorldSchema
          (VObj (<["userId" := VInt 1]> (spread body))) with
  | Throw _ => (s, json 400 (message "Invalid data"))
  | Ok validatedData =>
      let (s, newWorld) := createWorld s t_world validatedData in
      let (s, _) :=
        createActivityLog s t_log
          (object
             [ ("worldId", field newWorld "id");
               ("activityType", VStr "WORLD_CREATED");
               ("entityId", field newWorld "id");
               ("description",
                VStr ("Created world " +:+ interpolate (field newWorld "name")))
             ]) in
      (s, json 201 (VObj newWorld))
  end.

(** DELETE /api/worlds/:id *)
Definition delete_world (s : MemStorage) (id : string)
  : MemStorage * HttpResponse :=
  match lookup_param (worlds s) id with
  | None => (s, json 404 (message "World not found"))
  | Some (worldId, _) =>
      let (s, success) := deleteWorld s worldId in
      if success : bool then (s, send 204)
      else (s, json 500 (message "Failed to delete world"))
  end.

(** GET /api/worlds/:worldId/characters *)
Definition get_world_characters (s : MemStorage) (worldId : string)
  : HttpResponse :=
  match lookup_param (worlds s) worldId with
  | None => json 404 (message "World not found")
  | Some (worldId, _) =>
      json 200 (VArr (List.map VObj (getCharactersByWorld s (VInt worldId))))
  end.

(** POST /api/characters *)
Definition post_characters (s : MemStorage) (t_character t_log : Z)
    (body : value) : MemStorage * HttpResponse :=
  match Schema.parse Schema.insertCharacterSchema body with
  | Throw _ => (s, json 400 (message "Invalid data"))
  | Ok validatedData =>
      let (s, newCharacter) := createCharacter s t_character validatedData in
      let (s, _) :=
        createActivityLog s t_log
          (object
             [ ("worldId", field newCharacter "worldId");
               ("activityType", VStr "CHARACTER_CREATED");
               ("entityId", field newCharacter "id");
               ("description",
                VStr ("Created character "
                      +:+ interpolate (field newCharacter "name"))) ]) in
      (s, json 201 (VObj newCharacter))
  end.

(** PATCH /api/characters/:id/memory *)
Definition patch_character_memory (s : MemStorage) (id : string)
    (body : value) : MemStorage * HttpResponse :=
  match lookup_param (characters s) id with
  | None => (s, json 404 (message "Character not found"))
  | Some (characterId, character) =>
      let currentMemory := js_or (field character "memory") (VObj ∅) in
      let newMemory := VObj (spread body ∪ spread currentMemory) in
      let (s, updatedCharacter) :=
        updateCharacterMemory s characterId newMemory in
      (s, json 200 (or_undefined updatedCharacter))
  end.

(** POST /api/generate-character-response.  [now] is the clock reading of
    the [new Date()] in [createChatMessage].  The handler passes
    [character.id] to the store, so a value that is no key of the map
    updates nothing. *)
Definition post_generate_character_response (env : Env) (s : MemStorage)
    (now : Z) (body : value) : MemStorage * HttpResponse :=
  let failed := json 500 (message "Error generating character response") in
  match get_prop body "characterId" with
  | Throw _ => (s, failed)
  | Ok characterId =>
      if negb (truthy characterId)
      then (s, json 400 (message "Missing characterId"))
      else
        match
          match parseInt characterId with
          | Some id => getCharacter s id
          | None => None
          end
        with
        | None => (s, json 404 (message "Character not found"))
        | Some character =>
            let messages :=
              getChatMessagesByCharacter s (field character "id") in
            match fst (generateCharacterResponse env character messages) with
            | Throw _ => (s, failed)
            | Ok response =>
                match fst (analyzeMoodFromText env response) with
                | Throw _ => (s, failed)
                | Ok moodAnalysis =>
                    match get_prop moodAnalysis "mood",
                          get_prop moodAnalysis "intensity",
                          get_prop moodAnalysis "dominantColor" with
                    | Ok mood, Ok intensity, Ok dominantColor =>
                        let (s, newMessage) :=
                          createChatMessage s now
                            (object
                               [ ("characterId", field character "id");
                                 ("userId", VInt 1);
                                 ("isUserMessage", VBool false);
                                 ("content", response);
                                 ("mood", mood);
                                 ("moodIntensity", intensity);
                                 ("moodColor", dominantColor) ]) in
                        let data :=
                          object
                            [ ("currentMood", mood);
                              ("currentMoodIntensity", intensity);
                              ("currentMoodColor", dominantColor) ] in
                        let s :=
                          match as_key (field character "id") with
                          | Some id => fst (updateCharacter s id data)
                          | None => s
                          end in
                        (s, json 200
                              (VObj (object [ ("message", response);
                                              ("mood", moodAnalysis) ])))
                    | _, _, _ => (s, failed)
                    end
                end
            end
        end
  end.

(** GET /api/worlds/:worldId/activity?limit=N.  The limit is parsed when
    the query string carries a non-empty one. *)
Definition get_world_activity (s : MemStorage) (worldId : string)
    (limit_query : option string) : HttpResponse :=
  match lookup_param (worlds s) worldId with
  | None => json 404 (message "World not found")
  | Some (worldId, _) =>
      let limit :=
        match limit_query with
        | Some (String c q) => parseInt (VStr (String c q))
        | _ => None
        end in
      json 200
        (VArr (List.map VObj (getActivityLogsByWorld s (VInt worldId) limit)))
  end.

(** GET /api/worlds: the worlds of the demo user, user 1. *)
Definition get_worlds (s : MemStorage) : HttpResponse :=
  json 200 (VArr (List.map VObj (getWorldsByUser s (VInt 1)))).

(** GET /api/worlds/:id *)
Definition get_world (s : MemStorage) (id : string) : HttpResponse :=
  match lookup_param (worlds s) id with
  | None => json 404 (message "World not found")
  | Some (_, world) => json 200 (VObj world)
  end.

(** PATCH /api/worlds/:id.  The body goes to the store as the update data;
    the log names the world as it was read before the update. *)
Definition patch_world (s : MemStorage) (t_log : Z) (id : string)
    (body : value) : MemStorage * HttpResponse :=
  match lookup_param (worlds s) id with
  | None => (s, json 404 (message "World not found"))
  | Some (worldId, world) =>
      let (s, updatedWorld) := updateWorld s worldId (spread body) in
      let (s, _) :=
        createActivityLog s t_log
          (object
             [ ("worldId", VInt worldId);
               ("activityType", VStr "WORLD_UPDATED");
               ("entityId", VInt worldId);
               ("description",
                VStr ("Updated world " +:+ interpolate (field world "name")))
             ]) in
      (s, json 200 (or_undefined updatedWorld))
  end.

(** GET /api/characters: the characters of all worlds of user 1, world by
    world. *)
Definition get_characters (s : MemStorage) : HttpResponse :=
  match getWorldsByUser s (VInt 1) with
  | [] => json 200 (VArr [])
  | worlds =>
      json 200
        (VArr (List.map VObj
                 (List.concat
                    (List.map
                       (fun world => getCharactersByWorld s (field world "id"))
                       worlds))))
  end.

(** GET /api/characters/:id *)
Definition get_character (s : MemStorage) (id : string) : HttpResponse :=
  match lookup_param (characters s) id with
  | None => json 404 (message "Character not found")
  | Some (_, character) => json 200 (VObj character)
  end.

(** PATCH /api/characters/:id.  The log is filed under the world and the
    name the character had before the update. *)
Definition patch_character (s : MemStorage) (t_log : Z) (id : string)
    (body : value) : MemStorage * HttpResponse :=
  match lookup_param (characters s) id with
  | None => (s, json 404 (message "Character not found"))
  | Some (characterId, character) =>
      let (s, updatedCharacter) :=
        updateCharacter s characterId (spread body) in
      let (s, _) :=
        createActivityLog s t_log
          (object
             [ ("worldId", field character "worldId");
               ("activityType", VStr "CHARACTER_UPDATED");
               ("entityId", VInt characterId);
               ("description",
                VStr ("Updated character "
                      +:+ interpolate (field character "name"))) ]) in
      (s, json 200 (or_undefined updatedCharacter))
  end.

(** DELETE /api/characters/:id *)
Definition delete_character (s : MemStorage) (id : string)
  : MemStorage * HttpResponse :=
  match lookup_param (characters s) id with
  | None => (s, json 404 (message "Character not found"))
  | Some (characterId, _) =>
      let (s, success) := deleteCharacter s characterId in
      if success : bool then (s, send 204)
      else (s, json 500 (message "Failed to delete character"))
  end.

(** GET /api/characters/:characterId/messages *)
Definition get_character_messages (s : MemStorage) (characterId : string)
  : HttpResponse :=
  match lookup_param (characters s) characterId with
  | None => json 404 (message "Character not found")
  | Some (characterId, _) =>
      json 200
        (VArr (List.map VObj (getChatMessagesByCharacter s (VInt characterId))))
  end.

(** POST /api/chat-messages.  The message is stored first; the character is
    looked up afterwards, and a user message that is the character's only
    message so far is logged as the start of a conversation. *)
Definition post_chat_messages (s : MemStorage) (t_message t_log : Z)
    (body : value) : MemStorage * HttpResponse :=
  match Schema.parse Schema.insertChatMessageSchema
          (VObj (<["userId" := VInt 1]> (spread body))) with
  | Throw _ => (s, json 400 (message "Invalid data"))
  | Ok validatedData =>
      let (s, newMessage) := createChatMessage s t_message validatedData in
      let character :=
        match as_key (field validatedData "characterId") with
        | Some id => getCharacter s id
        | None => None
        end in
      let s :=
        match character with
        | Some character =>
            if truthy (field validatedData "isUserMessage") then
              let existingMessages :=
                getChatMessagesByCharacter s
                  (field validatedData "characterId") in
              if (length existingMessages <=? 1)%nat then
                fst (createActivityLog s t_log
                       (object
                          [ ("worldId", field character "worldId");
                            ("activityType", VStr "CHARACTER_CHAT");
                            ("entityId", field character "id");
                            ("description",
                             VStr ("Conversation with "
                                   +:+ interpolate (field character "name")))
                          ]))
              else s
            else s
        | None => s
        end in
      (s, json 201 (VObj newMessage))
  end.

(** GET /api/worlds/:worldId/scenes *)
Definition get_world_scenes (s : MemStorage) (worldId : string)
  : HttpResponse :=
  match lookup_param (worlds s) worldId with
  | None => json 404 (message "World not found")
  | Some (worldId, _) =>
      json 200 (VArr (List.map VObj (getScenesByWorld s (VInt worldId))))
  end.

(** GET /api/scenes/:id *)
Definition get_scene (s : MemStorage) (id : string) : HttpResponse :=
  match lookup_param (scenes s) id with
  | None => json 404 (message "Scene not found")
  | Some (_, scene) => json 200 (VObj scene)
  end.

(** POST /api/scenes *)
Definition post_scenes (s : MemStorage) (t_scene t_log : Z) (body : value)
  : MemStorage * HttpResponse :=
  match Schema.parse Schema.insertSceneSchema body with
  | Throw _ => (s, json 400 (message "Invalid data"))
  | Ok validatedData =>
      let (s, newScene) := createScene s t_scene validatedData in
      let (s, _) :=
        createActivityLog s t_log
          (object
             [ ("worldId", field newScene "worldId");
               ("activityType", VStr "SCENE_CREATED");
               ("entityId", field newScene "id");
               ("description",
                VStr ("Created scene " +:+ interpolate (field newScene "title")))
             ]) in
      (s, json 201 (VObj newScene))
  end.

(** PATCH /api/scenes/:id *)
Definition patch_scene (s : MemStorage) (t_log : Z) (id : string)
    (body : value) : MemStorage * HttpResponse :=
  match lookup_param (scenes s) id with
  | None => (s, json 404 (message "Scene not found"))
  | Some (sceneId, scene) =>
      let (s, updatedScene) := updateScene s sceneId (spread body) in
      let (s, _) :=
        createActivityLog s t_log
          (object
             [ ("worldId", field scene "worldId");
               ("activityType", VStr "SCENE_UPDATED");
               ("entityId", VInt sceneId);
               ("description",
                VStr ("Updated scene " +:+ interpolate (field scene "title")))
             ]) in
      (s, json 200 (or_undefined updatedScene))
  end.

(** DELETE /api/scenes/:id *)
Definition delete_scene (s : MemStorage) (id : string)
  : MemStorage * HttpResponse :=
  match lookup_param (scenes s) id with
  | None => (s, json 404 (message "Scene not found"))
  | Some (sceneId, _) =>
      let (s, success) := deleteScene s sceneId in
      if success : bool then (s, send 204)
      else (s, json 500 (message "Failed to delete scene"))
  end.

(** *** The API as a whole

    One constructor per route of [registerRoutes]; a request carries the
    path parameters, the body, and the clock readings of the [new Date()]
    its handler evaluates. *)
Inductive ApiRequest : Type :=
| GET_worlds
| GET_world (id : string)
| POST_worlds (t_world t_log : Z) (body : value)
| PATCH_world (t_log : Z) (id : string) (body : value)
| DELETE_world (id : string)
| GET_characters
| GET_world_characters (worldId : string)
| GET_character (id : string)
| POST_characters (t_character t_log : Z) (body : value)
| PATCH_character (t_log : Z) (id : string) (body : value)
| PATCH_character_memory (id : string) (body : value)
| DELETE_character (id : string)
| GET_character_messages (characterId : string)
| POST_chat_messages (t_message t_log : Z) (body : value)
| POST_generate_character_response (now : Z) (body : value)
| GET_world_scenes (worldId : string)
| GET_scene (id : string)
| POST_scenes (t_scene t_log : Z) (body : value)
| PATCH_scene (t_log : Z) (id : string) (body : value)
| DELETE_scene (id : string)
| GET_world_activity (worldId : string) (limit : option string).

Definition handle (env : Env) (s : MemStorage) (r : ApiRequest)
  : MemStorage * HttpResponse :=
  match r with
  | GET_worlds => (s, get_worlds s)
  | GET_world id => (s, get_world s id)
  | POST_worlds t_world t_log body => post_worlds s t_world t_log body
  | PATCH_world t_log id body => patch_world s t_log id body
  | DELETE_world id => delete_world s id
  | GET_characters => (s, get_characters s)
  | GET_world_characters worldId => (s, get_world_characters s worldId)
  | GET_character id => (s, get_character s id)
  | POST_characters t_character t_log body =>
      post_characters s t_character t_log body
  | PATCH_character t_log id body => patch_character s t_log id body
  | PATCH_character_memory id body => patch_character_memory s id body
  | DELETE_character id => delete_character s id
  | GET_character_messages characterId =>
      (s, get_character_messages s characterId)
  | POST_chat_messages t_message t_log body =>
      post_chat_messages s t_message t_log body
  | POST_generate_character_response now body =>
      post_generate_character_response env s now body
  | GET_world_scenes worldId => (s, get_world_scenes s worldId)
  | GET_scene id => (s, get_scene s id)
  | POST_scenes t_scene t_log body => post_scenes s t_scene t_log body
  | PATCH_scene t_log id body => patch_scene s t_log id body
  | DELETE_scene id => delete_scene s id
  | GET_world_activity worldId limit => (s, get_world_activity s worldId limit)
  end.

(** A run of requests served one after the other: the final store and the
    responses in order. *)
Fixpoint serve (env : Env) (s : MemStorage) (rs : list ApiRequest)
  : MemStorage * list HttpResponse :=
  match rs with
  | [] => (s, [])
  | r :: rs =>
      let (s1, resp) := handle env s r in
      let (s2, resps) := serve env s1 rs in
      (s2, resp :: resps)
  end.

End Handlers.

End Routes.
Export Routes.

(* ===================================================================== *)
(** ** Vocabulary of the properties *)
(* ===================================================================== *)

Definition Entity_eq_dec (e e' : Entity) : {e = e'} + {e <> e'}.
Proof. decide equality. Defined.

(** The entity types that have a generic update, and that update. *)
Inductive Updatable : Type := UWorld | UCharacter | UScene.

Definition entity_of (u : Updatable) : Entity :=
  match u with
  | UWorld => World
  | UCharacter => Character
  | UScene => Scene
  end.

Definition update (u : Updatable)
  : MemStorage -> Z -> obj -> MemStorage * option obj :=
  match u with
  | UWorld => updateWorld
  | UCharacter => updateCharacter
  | UScene => updateScene
  end.

(** The delete of the same three types, and the create of each type. *)
Definition remove (u : Updatable) : MemStorage -> Z -> MemStorage * bool :=
  match u with
  | UWorld => deleteWorld
  | UCharacter => deleteCharacter
  | UScene => deleteScene
  end.

Definition create (e : Entity) (s : MemStorage) (now : Z) (payload : obj)
  : MemStorage * obj :=
  match e with
  | User => createUser s payload
  | World => createWorld s now payload
  | Character => createCharacter s now payload
  | Scene => createScene s now payload
  | ChatMessage => createChatMessage s now payload
  | ActivityLog => createActivityLog s now payload
  end.

(** *** Sequences of store operations *)

Inductive Op : Type :=
| CreateUser (insertUser : obj)
| CreateWorld (now : Z) (insertWorld : obj)
| UpdateWorld (id : Z) (data : obj)
| DeleteWorld (id : Z)
| CreateCharacter (now : Z) (insertCharacter : obj)
| UpdateCharacter (id : Z) (data : obj)
| UpdateCharacterMemory (id : Z) (memory : value)
| DeleteCharacter (id : Z)
| CreateScene (now : Z) (insertScene : obj)
| UpdateScene (id : Z) (data : obj)
| DeleteScene (id : Z)
| CreateChatMessage (now : Z) (insertMessage : obj)
| CreateActivityLog (now : Z) (insertLog : obj).

(** One operation: the next store and, for a create, the entity type and the
    record the call returns. *)
Definition step (s : MemStorage) (op : Op)
  : MemStorage * option (Entity * obj) :=
  match op with
  | CreateUser i => let (s, r) := createUser s i in (s, Some (User, r))
  | CreateWorld t i => let (s, r) := createWorld s t i in (s, Some (World, r))
  | UpdateWorld id d => (fst (updateWorld s id d), None)
  | DeleteWorld id => (fst (deleteWorld s id), None)
  | CreateCharacter t i =>
      let (s, r) := createCharacter s t i in (s, Some (Character, r))
  | UpdateCharacter id d => (fst (updateCharacter s id d), None)
  | UpdateCharacterMemory id m => (fst (updateCharacterMemory s id m), None)
  | DeleteCharacter id => (fst (deleteCharacter s id), None)
  | CreateScene t i => let (s, r) := createScene s t i in (s, Some (Scene, r))
  | UpdateScene id d => (fst (updateScene s id d), None)
  | DeleteScene id => (fst (deleteScene s id), None)
  | CreateChatMessage t i =>
      let (s, r) := createChatMessage s t i in (s, Some (ChatMessage, r))
  | CreateActivityLog t i =>
      let (s, r) := createActivityLog s t i in (s, Some (ActivityLog, r))
  end.

(** A run: the final store and the records returned by its creates, in the
    order of the calls. *)
Fixpoint run (s : MemStorage) (ops : list Op)
  : MemStorage * list (Entity * obj) :=
  match ops with
  | [] => (s, [])
  | op :: ops =>
      let (s1, r) := step s op in
      let (s2, rs) := run s1 ops in
      (s2, match r with Some c => c :: rs | None => rs end)
  end.

(** The [id]s of the records of type [e] among those returned. *)
Definition issued (e : Entity) (created : list (Entity * obj)) : list value :=
  omap (fun c => if Entity_eq_dec (fst c) e then Some (field (snd c) "id")
                 else None)
       created.

(** Every key of every table lies below the counter of its type. *)
Definition bounded (s : MemStorage) : Prop :=
  forall e, Forall (fun k => k < counter e s) (map_keys (table e s)).

(** Every record carries, in [id], the key it is stored under. *)
Definition ids_are_keys (s : MemStorage) : Prop :=
  forall e, Forall (fun p => field (snd p) "id" = VInt (fst p)) (table e s).

(** The operation is no generic update whose data names [id]. *)
Definition keeps_id (op : Op) : bool :=
  match op with
  | UpdateWorld _ d | UpdateCharacter _ d | UpdateScene _ d =>
      match d !! "id" with Some _ => false | None => true end
  | _ => true
  end.

(** The DELETE and the GET request of one record of a type. *)
Definition delete_request (u : Updatable) (id : string) : ApiRequest :=
  match u with
  | UWorld => DELETE_world id
  | UCharacter => DELETE_character id
  | UScene => DELETE_scene id
  end.

Definition get_request (u : Updatable) (id : string) : ApiRequest :=
  match u with
  | UWorld => GET_world id
  | UCharacter => GET_character id
  | UScene => GET_scene id
  end.

(** The activity type under which a request is logged when it succeeds,
    for the requests that log whenever they succeed; POST
    /api/chat-messages logs under a condition of its own. *)
Definition activity_type_of (r : ApiRequest) : option string :=
  match r with
  | POST_worlds _ _ _ => Some "WORLD_CREATED"
  | PATCH_world _ _ _ => Some "WORLD_UPDATED"
  | POST_characters _ _ _ => Some "CHARACTER_CREATED"
  | PATCH_character _ _ _ => Some "CHARACTER_UPDATED"
  | POST_scenes _ _ _ => Some "SCENE_CREATED"
  | PATCH_scene _ _ _ => Some "SCENE_UPDATED"
  | _ => None
  end.

Definition is_chat_post (r : ApiRequest) : bool :=
  match r with
  | POST_chat_messages _ _ _ => true
  | _ => false
  end.

(** *** Timestamps *)

Definition is_date (v : value) : bool :=
  match v with VDate _ => true | _ => false end.

(** Every record of the table carries a Date in [createdAt], as each create
    leaves it. *)
Definition dated (m : JsMap obj) : bool :=
  forallb (fun o => is_date (field o "createdAt")) (map_values m).

(** The time value of a record's [createdAt]. *)
Definition created_at (o : obj) : Z :=
  match field o "createdAt" with VDate t => t | _ => 0 end.

Definition newest_first_sorted (l : list obj) : Prop :=
  StronglySorted (fun a b => created_at b <= created_at a) l.

Definition oldest_first_sorted (l : list obj) : Prop :=
  StronglySorted (fun a b => created_at a <= created_at b) l.

(** *** References between records *)

(** [v] is the key of a record of [parents]. *)
Definition refers (parents : JsMap obj) (v : value) : bool :=
  match as_key v with
  | Some k => map_has parents k
  | None => false
  end.

Definition all_refer (parents : JsMap obj) (k : string)
    (children : JsMap obj) : bool :=
  forallb (fun o => refers parents (field o k)) (map_values children).

(** Every Character, Scene and ActivityLog references an existing World and
    every ChatMessage references an existing Character. *)
Definition referential (s : MemStorage) : bool :=
  all_refer (worlds s) "worldId" (characters s)
  && all_refer (worlds s) "worldId" (scenes s)
  && all_refer (worlds s) "worldId" (activityLogs s)
  && all_refer (characters s) "characterId" (chatMessages s).

Definition points_to (v : value) (id : Z) : bool :=
  match as_key v with
  | Some k => Z.eqb k id
  | None => false
  end.

Definition unreferenced (k : string) (id : Z) (children : JsMap obj) : bool :=
  forallb (fun o => negb (points_to (field o k) id)) (map_values children).

(** The side condition under which an operation keeps references intact: a
    create or an update names an existing parent, a delete removes a record
    nothing points to.  The store checks none of it. *)
Definition respects (s : MemStorage) (op : Op) : bool :=
  match op with
  | CreateCharacter _ i | CreateScene _ i | CreateActivityLog _ i =>
      refers (worlds s) (field i "worldId")
  | CreateChatMessage _ i => refers (characters s) (field i "characterId")
  | UpdateCharacter _ d | UpdateScene _ d =>
      match d !! "worldId" with
      | Some v => refers (worlds s) v
      | None => true
      end
  | DeleteWorld id =>
      unreferenced "worldId" id (characters s)
      && unreferenced "worldId" id (scenes s)
      && unreferenced "worldId" id (activityLogs s)
  | DeleteCharacter id => unreferenced "characterId" id (chatMessages s)
  | _ => true
  end.

(** Every operation of the sequence respects the references of the store
    it is applied to. *)
Fixpoint respects_all (s : MemStorage) (ops : list Op) : bool :=
  match ops with
  | [] => true
  | op :: ops => respects s op && respects_all (fst (step s op)) ops
  end.

(** No character and no activity log of the store names world [n]. *)
Definition fresh_world (s : MemStorage) (n : Z) : bool :=
  forallb (fun o => negb (strict_eq (field o "worldId") (VInt n)))
          (map_values (characters s))
  && forallb (fun o => negb (strict_eq (field o "worldId") (VInt n)))
             (map_values (activityLogs s)).

(** *** Failures of the mood analysis *)

(** The failures the analyzer is specified to absorb: no credential, a
    network failure, an unreadable body, an empty candidate list, and model
    output that does not parse as JSON once its fences are stripped. *)
Inductive MoodFailure `{Runtime} (env : Env) (text : value) : Prop :=
| MissingCredentials :
    api_key env = None -> MoodFailure env text
| NetworkFailure key :
    api_key env = Some key ->
    network env (mood_request key text) = FetchRejects ->
    MoodFailure env text
| UnreadableBody key :
    api_key env = Some key ->
    network env (mood_request key text) = JsonRejects ->
    MoodFailure env text
| EmptyCandidates key data :
    api_key env = Some key ->
    network env (mood_request key text) = Body data ->
    get_prop data "candidates" = Ok (VArr []) ->
    MoodFailure env text
| ParseFailure key data output :
    api_key env = Some key ->
    network env (mood_request key text) = Body data ->
    fst (candidate_text data) = Ok (VStr output) ->
    JSON_parse (String_trim (strip_fences output)) = None ->
    MoodFailure env text.

(** *** A runtime to evaluate examples with

    [parseInt] reads integers and decimal digit strings, [trim] strips ASCII
    white space, [JSON.parse] knows the texts the examples use, and the
    remaining built-ins are never reached by them. *)
Fixpoint digits_value (acc : Z) (s : string) : option Z :=
  match s with
  | EmptyString => Some acc
  | String c s' =>
      let n := Z.of_nat (nat_of_ascii c) in
      if (48 <=? n) && (n <=? 57) then digits_value (10 * acc + (n - 48)) s'
      else None
  end.

Definition is_space (c : ascii) : bool :=
  let n := Z.of_nat (nat_of_ascii c) in
  (n =? 32) || ((9 <=? n) && (n <=? 13)).

Fixpoint trim_start (s : string) : string :=
  match s with
  | EmptyString => EmptyString
  | String c s' => if is_space c then trim_start s' else s
  end.

Fixpoint trim_end (s : string) : string :=
  match s with
  | EmptyString => EmptyString
  | String c s' =>
      match trim_end s' with
      | EmptyString => if is_space c then EmptyString else String c EmptyString
      | r => String c r
      end
  end.

(** The text [{"mood":"calm","intensity":0.3,"dominantColor":"#88aaff"}]
    and the object it denotes. *)
Definition calm_json : string :=
  "{" +:+ dq +:+ "mood" +:+ dq +:+ ":" +:+ dq +:+ "calm" +:+ dq +:+ ","
  +:+ dq +:+ "intensity" +:+ dq +:+ ":0.3,"
  +:+ dq +:+ "dominantColor" +:+ dq +:+ ":" +:+ dq +:+ "#88aaff" +:+ dq
  +:+ "}".

Definition calm : value :=
  VObj (object [ ("mood", VStr "calm");
                 ("intensity", VNum 0.3);
                 ("dominantColor", VStr "#88aaff") ]).

Definition example_runtime : Runtime :=
  {| parseInt := fun v =>
       match v with
       | VStr (String c s) => digits_value 0 (String c s)
       | _ => as_key v
       end;
     JSON_parse := fun s =>
       if String.eqb s "{}" then Some (VObj ∅)
       else if String.eqb s "null" then Some VNull
       else if String.eqb s calm_json then Some calm
       else None;
     Date_time := fun _ => None;
     String_trim := fun s => trim_end (trim_start s);
     ToString := fun _ => "[object Object]" |}.

Definition example_clock : nat -> Z := fun _ => 1700000000000.

(** The demo store, the body of a character for world 1, and the store in
    which that character has been created: it is character 4. *)
Definition demo_store : MemStorage := constructor example_clock.

Definition hero_insert : obj :=
  object [ ("worldId", VInt 1); ("name", VStr "Hero");
           ("role", VStr "Knight");
           ("personality", VStr "Brave and loyal to a fault.");
           ("memory", VObj (object [("interactions", VInt 0)])) ].

Definition hero : obj :=
  <["createdAt" := VDate 7]> (<["id" := VInt 4]> hero_insert).

Definition hero_store : MemStorage :=
  fst (createCharacter demo_store 7 hero_insert).

(** An environment without credential, and one whose service answers every
    request with the given text as the only candidate. *)
Definition offline : Env :=
  {| GEMINI_API_KEY := None; network := fun _ => FetchRejects |}.

Definition answering (text : string) : Env :=
  {| GEMINI_API_KEY := Some "secret";
     network := fun _ =>
       Body (VObj (object
         [ ("candidates",
            VArr [ VObj (object
                     [ ("content",
                        VObj (object
                          [ ("parts",
                             VArr [VObj (object [("text", VStr text)])]) ]))
                     ]) ]) ])) |}.

(** The body of an answer of the service with one candidate, whose first
    part carries the given text. *)
Definition one_candidate (text : string) : value :=
  VObj (object
    [ ("candidates",
       VArr [ VObj (object
                [ ("content",
                   VObj (object
                     [ ("parts",
                        VArr [VObj (object [("text", VStr text)])]) ])) ])
            ]) ]).

(** No answer of the service can be read: there is no credential, or every
    request fails, in [fetch] or in [response.json()]. *)
Definition unreachable (env : Env) : Prop :=
  api_key env = None \/ forall r data, network env r <> Body data.

(** Texts and code fences: a text without backtick, a text with a fence
    somewhere, and the number of backticks a text opens with. *)
Fixpoint backtick_free (s : string) : bool :=
  match s with
  | EmptyString => true
  | String c s' => negb (Ascii.eqb c "`") && backtick_free s'
  end.

Fixpoint has_fence (s : string) : bool :=
  match s with
  | EmptyString => false
  | String _ s' => String.prefix "```" s || has_fence s'
  end.

Fixpoint leading_backticks (s : string) : nat :=
  match s with
  | EmptyString => 0%nat
  | String c s' =>
      if Ascii.eqb c "`" then S (leading_backticks s') else 0%nat
  end.

(* ===================================================================== *)
(** ** Facts about the insertion-ordered map *)
(* ===================================================================== *)

Section JsMapFacts.
Context {T : Type}.
Implicit Types (m : JsMap T) (k j : Z) (v : T).

Lemma map_get_set_eq m k v : map_get (map_set m k v) k = Some v.
Proof.
  induction m as [|[k' v'] m IH]; simpl.
  - now rewrite Z.eqb_refl.
  - destruct (Z.eqb_spec k' k); simpl.
    + now rewrite Z.eqb_refl.
    + destruct (Z.eqb_spec k' k); [contradiction | exact IH].
Qed.

Lemma map_get_set_ne m k j v :
  j <> k -> map_get (map_set m k v) j = map_get m j.
Proof.
  intros Hne. induction m as [|[k' v'] m IH]; simpl.
  - destruct (Z.eqb_spec k j); [congruence | reflexivity].
  - destruct (Z.eqb_spec k' k) as [->|Hk]; simpl.
    + destruct (Z.eqb_spec k j); [congruence | reflexivity].
    + now rewrite IH.
Qed.

Lemma map_get_None_keys m k : map_get m k = None <-> ~ In k (map_keys m).
Proof.
  induction m as [|[k' v'] m IH]; simpl.
  - tauto.
  - destruct (Z.eqb_spec k' k) as [->|Hk].
    + split; [discriminate | intros Hn; exfalso; apply Hn; now left].
    + rewrite IH. tauto.
Qed.

Lemma map_get_Some_In m k v : map_get m k = Some v -> In v (map_values m).
Proof.
  induction m as [|[k' v'] m IH]; simpl; [discriminate|].
  destruct (Z.eqb_spec k' k); intros Hg.
  - left. congruence.
  - right. now apply IH.
Qed.

(** Setting a key that is absent appends the entry. *)
Lemma map_set_fresh m k v : map_get m k = None -> map_set m k v = m ++ [(k, v)].
Proof.
  induction m as [|[k' v'] m IH]; simpl; [reflexivity|].
  destruct (Z.eqb_spec k' k); [discriminate|].
  intros Hg. now rewrite IH.
Qed.

(** Setting a key that is present leaves the keys and their order alone. *)
Lemma map_keys_set_present m k v :
  map_get m k <> None -> map_keys (map_set m k v) = map_keys m.
Proof.
  induction m as [|[k' v'] m IH]; simpl; [congruence|].
  destruct (Z.eqb_spec k' k) as [->|Hk]; simpl; [reflexivity|].
  intros Hg. now rewrite IH.
Qed.

Lemma map_keys_set m k v :
  map_keys (map_set m k v) =
  if map_has m k then map_keys m else map_keys m ++ [k].
Proof.
  unfold map_has. destruct (map_get m k) eqn:Hg.
  - apply map_keys_set_present. congruence.
  - rewrite map_set_fresh by assumption. unfold map_keys.
    now rewrite List.map_app.
Qed.

Lemma map_keys_delete_incl m k j :
  In j (map_keys (fst (map_delete m k))) -> In j (map_keys m).
Proof.
  unfold map_delete, map_keys; simpl. rewrite !in_map_iff.
  intros [e [He Hin]]. exists e. split; [assumption|].
  now apply List.filter_In in Hin.
Qed.

Lemma map_get_delete_eq m k : map_get (fst (map_delete m k)) k = None.
Proof.
  unfold map_delete; simpl.
  induction m as [|[k' v'] m IH]; simpl; [reflexivity|].
  destruct (Z.eqb_spec k' k) as [->|Hk]; simpl; [exact IH|].
  destruct (Z.eqb_spec k' k); [contradiction | exact IH].
Qed.

Lemma map_get_delete_ne m k j :
  j <> k -> map_get (fst (map_delete m k)) j = map_get m j.
Proof.
  intros Hne. unfold map_delete; simpl.
  induction m as [|[k' v'] m IH]; simpl; [reflexivity|].
  destruct (Z.eqb_spec k' k) as [->|Hk]; simpl.
  - destruct (Z.eqb_spec k j); [congruence | exact IH].
  - now rewrite IH.
Qed.

(** The values after a set: the old ones, with the one at the key replaced,
    or with the new one at the end. *)
Lemma map_values_set_In m k v x :
  In x (map_values (map_set m k v)) -> x = v \/ In x (map_values m).
Proof.
  induction m as [|[k' v'] m IH]; simpl.
  - intros [<-|[]]. now left.
  - destruct (Z.eqb_spec k' k); simpl.
    + intros [<-|Hin]; [now left | right; now right].
    + intros [<-|Hin]; [right; now left|].
      destruct (IH Hin); [now left | right; now right].
Qed.

Lemma map_values_delete_In m k x :
  In x (map_values (fst (map_delete m k))) -> In x (map_values m).
Proof.
  unfold map_delete, map_values; simpl. rewrite !in_map_iff.
  intros [e [He Hin]]. exists e. split; [assumption|].
  now apply List.filter_In in Hin.
Qed.

End JsMapFacts.

(* ===================================================================== *)
(** ** Frame facts about the store's fields *)
(* ===================================================================== *)

Lemma table_set_table_eq e m s : table e (set_table e m s) = m.
Proof. now destruct e. Qed.

Lemma table_set_table_ne e e' m s :
  e' <> e -> table e' (set_table e m s) = table e' s.
Proof. destruct e, e'; simpl; congruence. Qed.

Lemma table_set_counter e e' c s : table e' (set_counter e c s) = table e' s.
Proof. now destruct e, e'. Qed.

Lemma counter_set_table e e' m s : counter e' (set_table e m s) = counter e' s.
Proof. now destruct e, e'. Qed.

Lemma counter_set_counter_eq e c s : counter e (set_counter e c s) = c.
Proof. now destruct e. Qed.

Lemma counter_set_counter_ne e e' c s :
  e' <> e -> counter e' (set_counter e c s) = counter e' s.
Proof. destruct e, e'; simpl; congruence. Qed.

(** Every generic update has one shape. *)
Lemma update_unfold u s id data :
  update u s id data =
  match map_get (table (entity_of u) s) id with
  | None => (s, None)
  | Some old =>
      (set_table (entity_of u)
         (map_set (table (entity_of u) s) id (data ∪ old)) s,
       Some (data ∪ old))
  end.
Proof. now destruct u. Qed.

(* ===================================================================== *)
(** ** Generic update: soft failure and shallow merge *)
(* ===================================================================== *)

(** C6.  For World, Character and Scene alike, an update of an id that the
    store does not hold returns undefined (here [None]) and hands back the
    very same store: nothing is created, nothing is changed, nothing is
    raised. *)
Theorem update_missing_is_noop (u : Updatable) (s : MemStorage) (id : Z)
    (data : obj) :
  map_get (table (entity_of u) s) id = None ->
  update u s id data = (s, None).
Proof.
  intros Hmiss. rewrite update_unfold. now rewrite Hmiss.
Qed.

Lemma VInt_inj a b : VInt a = VInt b -> a = b.
Proof. unfold VInt, inject_Z. now intros [= ->]. Qed.

(** C10.  An update of an existing id [i] stores at key [i] the shallow
    merge of the old record with the data: properties the data does not name
    keep their old value, properties it names take the supplied value, [id]
    and [createdAt] included; the other keys, their order, the other tables
    and the counters stay as they were.  In particular the data [{ id: i+1 }]
    leaves under key [i] a record whose [id] is not [i]. *)
Theorem update_stores_shallow_merge (u : Updatable) (s : MemStorage) (i : Z)
    (old data : obj) :
  map_get (table (entity_of u) s) i = Some old ->
  let s' := fst (update u s i data) in
  snd (update u s i data) = Some (data ∪ old)
  /\ map_get (table (entity_of u) s') i = Some (data ∪ old)
  /\ (forall k, data !! k = None -> (data ∪ old) !! k = old !! k)
  /\ (forall k v, data !! k = Some v -> (data ∪ old) !! k = Some v)
  /\ (forall j, j <> i ->
        map_get (table (entity_of u) s') j = map_get (table (entity_of u) s) j)
  /\ map_keys (table (entity_of u) s') = map_keys (table (entity_of u) s)
  /\ (forall e, e <> entity_of u -> table e s' = table e s)
  /\ (forall e, counter e s' = counter e s)
  /\ (exists stored,
        map_get (table (entity_of u)
                   (fst (update u s i {[ "id" := VInt (i + 1) ]}))) i
        = Some stored
        /\ field stored "id" = VInt (i + 1)
        /\ field stored "id" <> VInt i).
Proof.
  intros Hold s'. subst s'. rewrite !update_unfold, Hold. simpl.
  repeat apply conj.
  - reflexivity.
  - rewrite table_set_table_eq. apply map_get_set_eq.
  - intros k Hk. rewrite lookup_union_r; auto.
  - intros k v Hk. now apply lookup_union_Some_l.
  - intros j Hj. rewrite table_set_table_eq. now apply map_get_set_ne.
  - rewrite table_set_table_eq. apply map_keys_set_present. congruence.
  - intros e He. now apply table_set_table_ne.
  - intros e. apply counter_set_table.
  - eexists. split; [|split].
    + rewrite table_set_table_eq. apply map_get_set_eq.
    + unfold field. erewrite lookup_union_Some_l; [reflexivity|].
      apply lookup_singleton_eq.
    + unfold field. erewrite lookup_union_Some_l by apply lookup_singleton_eq.
      simpl. intros Heq. apply VInt_inj in Heq. lia.
Qed.

(* ===================================================================== *)
(** ** Character memory: replaced by the store, merged by the route *)
(* ===================================================================== *)

Lemma spread_js_or v : spread (js_or v (VObj ∅)) = spread v.
Proof.
  unfold js_or.
  destruct v as [| |b|q|s|t|l|m]; simpl; try reflexivity.
  - now destruct b.
  - now destruct (Qeq_bool q 0).
  - now destruct s.
Qed.

Lemma updateCharacterMemory_present s id c memory :
  getCharacter s id = Some c ->
  updateCharacterMemory s id memory =
  (set_table Character
     (map_set (characters s) id (<["memory" := memory]> c)) s,
   Some (<["memory" := memory]> c)).
Proof.
  unfold getCharacter, updateCharacterMemory. now intros ->.
Qed.

Lemma patch_character_memory_present `{Runtime} s id cid c body :
  parseInt (VStr id) = Some cid ->
  getCharacter s cid = Some c ->
  patch_character_memory s id body =
  (set_table Character
     (map_set (characters s) cid
        (<["memory" := VObj (spread body ∪ spread (field c "memory"))]> c)) s,
   json 200
     (VObj (<["memory" := VObj (spread body ∪ spread (field c "memory"))]> c))).
Proof.
  intros Hp Hc. unfold patch_character_memory, lookup_param.
  rewrite Hp. unfold getCharacter in Hc. rewrite Hc.
  rewrite spread_js_or.
  unfold updateCharacterMemory. now rewrite Hc.
Qed.

(** C1, as stated, fails: the store operation assigns the document to
    [memory].  On the demo store, [updateCharacterMemory(1, {a:1})] followed
    by [updateCharacterMemory(1, {b:2})] leaves the memory [{b:2}], without
    [a] and without the keys the character had before. *)
Lemma updateCharacterMemory_replaces_not_merges :
  let doc_a : obj := object [("a", VInt 1)] in
  let doc_b : obj := object [("b", VInt 2)] in
  let s0 := constructor example_clock in
  let s1 := fst (updateCharacterMemory s0 1 (VObj doc_a)) in
  let s2 := fst (updateCharacterMemory s1 1 (VObj doc_b)) in
  let memory_in s := option_map (fun c => field c "memory") (getCharacter s 1) in
  option_map (fun old => (doc_a ∪ spread old) !! "interactions") (memory_in s0)
  = Some (Some (VInt 24))
  /\ memory_in s1 = Some (VObj doc_a)
  /\ doc_a !! "interactions" = None
  /\ memory_in s2 = Some (VObj doc_b)
  /\ doc_b !! "a" = None.
Proof.
  cbv zeta. repeat apply conj; vm_compute; reflexivity.
Qed.

(** C1, amended.  For an existing character, the store operation
    [updateCharacterMemory(id, doc)] replaces the [memory] property by [doc]
    and leaves the other properties alone.  The shallow merge is made by the
    handler of PATCH /api/characters/:id/memory before it calls the store:
    the stored memory is the union of the old memory's keys and the body's,
    the body's winning, so two successive PATCHes keep the keys of both
    bodies, those of the later one winning. *)
Theorem memory_is_merged_by_the_route `{Runtime} (s : MemStorage)
    (id : string) (cid : Z) (c : obj) :
  parseInt (VStr id) = Some cid ->
  getCharacter s cid = Some c ->
  (forall doc,
      getCharacter (fst (updateCharacterMemory s cid doc)) cid
      = Some (<["memory" := doc]> c))
  /\ (forall body,
        exists merged,
          getCharacter (fst (patch_character_memory s id body)) cid
          = Some (<["memory" := VObj merged]> c)
          /\ snd (patch_character_memory s id body)
             = json 200 (VObj (<["memory" := VObj merged]> c))
          /\ forall k,
               merged !! k =
               match spread body !! k with
               | Some v => Some v
               | None => spread (field c "memory") !! k
               end)
  /\ (forall body1 body2,
        exists c2 merged,
          getCharacter
            (fst (patch_character_memory
                    (fst (patch_character_memory s id body1)) id body2)) cid
          = Some c2
          /\ field c2 "memory" = VObj merged
          /\ (forall k v, spread body2 !! k = Some v -> merged !! k = Some v)
          /\ (forall k v,
                spread body2 !! k = None -> spread body1 !! k = Some v ->
                merged !! k = Some v)).
Proof.
  intros Hp Hc. repeat apply conj.
  - intros doc. rewrite (updateCharacterMemory_present _ _ _ _ Hc). simpl.
    unfold getCharacter. simpl. apply map_get_set_eq.
  - intros body. eexists.
    rewrite (patch_character_memory_present _ _ _ _ _ Hp Hc). simpl.
    repeat apply conj.
    + unfold getCharacter. simpl. apply map_get_set_eq.
    + reflexivity.
    + intros k. rewrite lookup_union.
      destruct (spread body !! k), (spread (field c "memory") !! k);
        reflexivity.
  - intros body1 body2.
    rewrite (patch_character_memory_present _ _ _ _ body1 Hp Hc). simpl.
    erewrite patch_character_memory_present;
      [| exact Hp | unfold getCharacter; simpl; apply map_get_set_eq].
    simpl. eexists _, _. repeat apply conj.
    + unfold getCharacter. simpl. apply map_get_set_eq.
    + unfold field. rewrite lookup_insert_eq. reflexivity.
    + intros k v Hk. now apply lookup_union_Some_l.
    + intros k v Hk2 Hk1. rewrite lookup_union_r by assumption.
      unfold field. rewrite lookup_insert_eq. simpl.
      now apply lookup_union_Some_l.
Qed.

(* ===================================================================== *)
(** ** Identifiers: issued from counters that only grow *)
(* ===================================================================== *)

Ltac unfold_ops :=
  unfold createUser, createWorld, updateWorld, deleteWorld,
    createCharacter, updateCharacter, updateCharacterMemory, deleteCharacter,
    createScene, updateScene, deleteScene, createChatMessage,
    createActivityLog, map_delete.

Ltac break_lookup :=
  repeat match goal with
         | |- context [map_get ?m ?k] => destruct (map_get m k) eqn:?
         end.

(** No operation lowers a counter. *)
Lemma step_counter_mono e s op : counter e s <= counter e (fst (step s op)).
Proof.
  destruct op; simpl; unfold_ops; break_lookup; destruct e; simpl; lia.
Qed.

(** A create returns the counter of its type as [id] and moves it up by
    one, whatever [id] the caller supplied. *)
Lemma step_issue s op e o :
  snd (step s op) = Some (e, o) ->
  field o "id" = VInt (counter e s)
  /\ counter e (fst (step s op)) = counter e s + 1.
Proof.
  destruct op; simpl; try discriminate; intros [= <- <-]; simpl;
    (split; [| reflexivity]); unfold field;
    rewrite ?(lookup_insert_ne _ "createdAt" "id") by discriminate;
    now rewrite lookup_insert_eq.
Qed.

Lemma run_issued e ops :
  forall s, exists ks,
    issued e (snd (run s ops)) = List.map VInt ks
    /\ StronglySorted Z.lt ks
    /\ Forall (fun k => counter e s <= k) ks.
Proof.
  induction ops as [|op ops IH]; intros s; simpl.
  - exists []. repeat split; constructor.
  - pose proof (step_counter_mono e s op) as Hmono.
    pose proof (step_issue s op) as Hissue.
    destruct (step s op) as [s1 r]. simpl in Hmono, Hissue.
    destruct (IH s1) as [ks [Hks [Hsorted Hlow]]].
    destruct (run s1 ops) as [s2 rs]. simpl in Hks.
    assert (Hlow' : Forall (fun k => counter e s <= k) ks).
    { eapply List.Forall_impl; [|exact Hlow]. simpl. intros k Hk. lia. }
    destruct r as [[e' o]|]; simpl; [|now exists ks].
    unfold issued in *. simpl. destruct (Entity_eq_dec e' e) as [->|Hne].
    + destruct (Hissue e o eq_refl) as [Hid Hnext].
      exists (counter e s :: ks). rewrite Hid, Hks. simpl.
      repeat split.
      * constructor; [assumption|].
        eapply List.Forall_impl; [|exact Hlow]. simpl. intros k Hk. lia.
      * constructor; [lia | assumption].
    + now exists ks.
Qed.

Lemma StronglySorted_lt_app (l1 l2 : list Z) (c : Z) :
  StronglySorted Z.lt l1 -> StronglySorted Z.lt l2 ->
  Forall (fun k => k < c) l1 -> Forall (fun k => c <= k) l2 ->
  StronglySorted Z.lt (l1 ++ l2).
Proof.
  intros H1 H2 Hlt Hge. induction H1 as [|a l1 Hs IH Ha]; simpl.
  - assumption.
  - inversion Hlt; subst. constructor; [now apply IH|].
    apply List.Forall_app. split; [assumption|].
    eapply List.Forall_impl; [|exact Hge]. simpl. intros k Hk. lia.
Qed.

Lemma StronglySorted_lt_NoDup (l : list Z) : StronglySorted Z.lt l -> List.NoDup l.
Proof.
  induction 1 as [|a l Hs IH Ha]; constructor; [|assumption].
  intros Hin. rewrite List.Forall_forall in Ha. specialize (Ha a Hin). lia.
Qed.

(** The demo data leaves each table with increasing keys below its
    counter. *)
Lemma constructor_keys clock e :
  StronglySorted Z.lt (map_keys (table e (constructor clock)))
  /\ Forall (fun k => k < counter e (constructor clock))
            (map_keys (table e (constructor clock))).
Proof.
  destruct e; vm_compute; split; repeat constructor.
Qed.

(** C4.  Take the store as the constructor leaves it and run any sequence of
    store operations on it, deletes included.  For each entity type, the ids
    returned by the creates are integers that, put after the ids of the demo
    records of that type, form a strictly increasing sequence: each id is
    greater than every id issued before it, and none occurs twice. *)
Theorem created_ids_strictly_increase (clock : nat -> Z) (ops : list Op)
    (e : Entity) :
  exists ks : list Z,
    issued e (snd (run (constructor clock) ops)) = List.map VInt ks
    /\ StronglySorted Z.lt (map_keys (table e (constructor clock)) ++ ks)
    /\ List.NoDup (map_keys (table e (constructor clock)) ++ ks).
Proof.
  destruct (run_issued e ops (constructor clock)) as [ks [Hks [Hs Hlow]]].
  destruct (constructor_keys clock e) as [Hs0 Hlt0].
  assert (Hall : StronglySorted Z.lt
                   (map_keys (table e (constructor clock)) ++ ks)).
  { now apply StronglySorted_lt_app with (c := counter e (constructor clock)). }
  exists ks. repeat split; [assumption..|].
  now apply StronglySorted_lt_NoDup.
Qed.

(** The ids a run issues, on the demo store: a deleted id is not given out
    again, and an [id] supplied by the caller is ignored. *)
Example issued_after_delete :
  issued World
    (snd (run (constructor example_clock)
            [ CreateWorld 5 ∅; DeleteWorld 4;
              CreateWorld 6 (object [("id", VInt 1)]) ]))
  = [VInt 4; VInt 5].
Proof. vm_compute. reflexivity. Qed.

(** *** Keys stay below the counters *)

Lemma Forall_keys_weaken {T} (m : JsMap T) (c c' : Z) :
  c <= c' ->
  Forall (fun k => k < c) (map_keys m) -> Forall (fun k => k < c') (map_keys m).
Proof.
  intros Hle. apply List.Forall_impl. intros k Hk. lia.
Qed.

Lemma Forall_keys_set {T} (m : JsMap T) (k : Z) (v : T) (c : Z) :
  k < c ->
  Forall (fun k => k < c) (map_keys m) ->
  Forall (fun k => k < c) (map_keys (map_set m k v)).
Proof.
  intros Hk Hm. rewrite map_keys_set. destruct (map_has m k); [assumption|].
  apply List.Forall_app. split; [assumption|]. now constructor.
Qed.

Lemma Forall_keys_delete {T} (m : JsMap T) (k : Z) (c : Z) :
  Forall (fun k => k < c) (map_keys m) ->
  Forall (fun k => k < c) (map_keys (fst (map_delete m k))).
Proof.
  rewrite !List.Forall_forall. intros Hm j Hj.
  apply Hm. eapply map_keys_delete_incl. exact Hj.
Qed.

Lemma bounded_fresh s e : bounded s -> map_get (table e s) (counter e s) = None.
Proof.
  intros Hb. apply map_get_None_keys. intros Hin.
  specialize (Hb e). rewrite List.Forall_forall in Hb.
  specialize (Hb _ Hin). simpl in Hb. lia.
Qed.

Lemma step_bounded s op : bounded s -> bounded (fst (step s op)).
Proof.
  intros Hb e. pose proof (Hb e) as He.
  destruct op; simpl; unfold_ops; break_lookup; simpl;
    destruct e; simpl in *;
    first
      [ assumption
      | apply Forall_keys_set;
        [ lia | eapply Forall_keys_weaken; [| exact He]; lia ]
      | eapply Forall_keys_weaken; [| exact He]; lia
      | apply Forall_keys_set; [| exact He];
        match goal with
        | Hg : map_get ?m ?k = Some _ |- _ =>
            let Hin := fresh in
            assert (Hin : In k (map_keys m))
              by (destruct (in_dec Z.eq_dec k (map_keys m)) as [|Hn];
                  [assumption
                  | apply map_get_None_keys in Hn; congruence]);
            rewrite List.Forall_forall in He; exact (He _ Hin)
        end
      | exact (Forall_keys_delete _ _ _ He) ].
Qed.

Lemma run_bounded ops : forall s, bounded s -> bounded (fst (run s ops)).
Proof.
  induction ops as [|op ops IH]; intros s Hb; simpl; [assumption|].
  pose proof (step_bounded s op Hb) as Hb1.
  destruct (step s op) as [s1 r]. simpl in Hb1.
  specialize (IH s1 Hb1). now destruct (run s1 ops).
Qed.

Lemma constructor_bounded clock : bounded (constructor clock).
Proof. intros e. apply constructor_keys. Qed.

(* ===================================================================== *)
(** ** The AI helpers: what they return and what they absorb *)
(* ===================================================================== *)

#[local] Opaque no_candidate candidate_text.

(** The result of the mood analysis, path by path. *)
Lemma analyzeMoodFromText_result `{Runtime} env text :
  fst (analyzeMoodFromText env text) =
  Ok match api_key env with
     | None => NEUTRAL
     | Some key =>
         match network env (mood_request key text) with
         | Body data =>
             match fst (no_candidate data) with
             | Ok false =>
                 match fst (candidate_text data) with
                 | Ok (VStr output) =>
                     match JSON_parse (String_trim (strip_fences output)) with
                     | Some moodAnalysis => moodAnalysis
                     | None => NEUTRAL
                     end
                 | _ => NEUTRAL
                 end
             | _ => NEUTRAL
             end
         | _ => NEUTRAL
         end
     end.
Proof.
  unfold analyzeMoodFromText.
  destruct (api_key env) as [key|]; [|reflexivity].
  unfold do_fetch.
  destruct (network env (mood_request key text)) as [| |data];
    [reflexivity | reflexivity |].
  cbn.
  destruct (no_candidate data) as [[[|]|e] t]; cbn; try reflexivity.
  destruct (candidate_text data) as [[v|e'] t']; cbn; try reflexivity.
  destruct v as [| | | |output| | |]; cbn; try reflexivity.
  destruct (JSON_parse (String_trim (strip_fences output))); reflexivity.
Qed.

(** The result of the response generator, path by path. *)
Lemma generateCharacterResponse_result env character messages :
  fst (generateCharacterResponse env character messages) =
  Ok match api_key env with
     | None => FALLBACK
     | Some key =>
         match network env (generate_request key character messages) with
         | Body data =>
             match fst (no_candidate data) with
             | Ok false =>
                 match fst (candidate_text data) with
                 | Ok text => text
                 | Throw _ => FALLBACK
                 end
             | _ => FALLBACK
             end
         | _ => FALLBACK
         end
     end.
Proof.
  unfold generateCharacterResponse.
  destruct (api_key env) as [key|]; [|reflexivity].
  unfold do_fetch.
  destruct (network env (generate_request key character messages))
    as [| |data]; [reflexivity | reflexivity |].
  cbn.
  destruct (no_candidate data) as [[[|]|e] t]; cbn; try reflexivity.
  destruct (candidate_text data) as [[v|e'] t']; reflexivity.
Qed.

#[local] Transparent no_candidate candidate_text.

(** The generator never raises. *)
Lemma generateCharacterResponse_never_raises env character messages :
  exists v, fst (generateCharacterResponse env character messages) = Ok v.
Proof. rewrite generateCharacterResponse_result. eauto. Qed.

(** Without a credential the generator answers the fallback and its only
    event is the console message: no request is sent. *)
Lemma generateCharacterResponse_without_key env character messages :
  api_key env = None ->
  generateCharacterResponse env character messages
  = (Ok FALLBACK,
     [ConsoleError "Missing GEMINI_API_KEY environment variable"])
  /\ fetches (generateCharacterResponse env character messages) = [].
Proof.
  intros Hk. unfold fetches, generateCharacterResponse. rewrite Hk.
  split; reflexivity.
Qed.

(** A network failure, an unreadable body, a body without candidates or
    with an empty candidate list: the fallback. *)
Lemma generateCharacterResponse_absorbs env character messages key :
  api_key env = Some key ->
  (network env (generate_request key character messages) = FetchRejects
   \/ network env (generate_request key character messages) = JsonRejects
   \/ exists data,
        network env (generate_request key character messages) = Body data
        /\ (get_prop data "candidates" = Ok VUndef
            \/ get_prop data "candidates" = Ok (VArr []))) ->
  fst (generateCharacterResponse env character messages) = Ok FALLBACK.
Proof.
  intros Hk Hfail. rewrite generateCharacterResponse_result, Hk.
  destruct Hfail as [-> | [-> | [data [-> Hc]]]]; [reflexivity..|].
  unfold no_candidate. destruct Hc as [-> | ->]; reflexivity.
Qed.

(** C8, at the input where the code departs from it.  A credential is set
    and the service answers with one candidate whose first part carries no
    [text]: [{ candidates: [{ content: { parts: [{}] } }] }].  The response
    is malformed, yet the generator returns [undefined], which is neither
    generated text nor the fallback string. *)
Theorem generateCharacterResponse_part_without_text
    (key : string) (character : obj) (messages : list obj) :
  let data :=
    VObj (object
      [ ("candidates",
         VArr [ VObj (object
                  [ ("content",
                     VObj (object [("parts", VArr [VObj ∅])])) ]) ]) ]) in
  let env :=
    {| GEMINI_API_KEY := Some (String "k" key);
       network := fun _ => Body data |} in
  fst (generateCharacterResponse env character messages) = Ok VUndef
  /\ VUndef <> FALLBACK.
Proof.
  cbv zeta. split; [|discriminate].
  rewrite generateCharacterResponse_result. reflexivity.
Qed.

(** The analyzer on a fenced JSON answer, and on the literal [null], which
    is valid JSON: the parsed value is returned as it is. *)
Example analyze_fenced_json :
  fst (@analyzeMoodFromText example_runtime
         (answering ("```json" +:+ nl +:+ calm_json +:+ nl +:+ "```"))
         (VStr "Hello"))
  = Ok calm.
Proof. vm_compute. reflexivity. Qed.

Example analyze_null :
  fst (@analyzeMoodFromText example_runtime (answering "null") (VStr "Hello"))
  = Ok VNull.
Proof. vm_compute. reflexivity. Qed.

Example generate_answer :
  fst (generateCharacterResponse (answering "Well met.") hero []) =
  Ok (VStr "Well met.").
Proof. vm_compute. reflexivity. Qed.

(** C7.  The mood analyzer never raises: it always returns a value.  On
    each failure that it is specified to absorb (no credential, a network
    failure, an unreadable body, an empty candidate list, model output that
    is not JSON once the code fences are stripped) the value is the fixed
    neutral mood [{ mood: "neutral", intensity: 0.5,
    dominantColor: "#808080" }]. *)
Theorem analyzeMoodFromText_never_raises `{Runtime} (env : Env)
    (text : value) :
  (exists moodAnalysis,
      fst (analyzeMoodFromText env text) = Ok moodAnalysis)
  /\ (MoodFailure env text ->
      fst (analyzeMoodFromText env text) = Ok NEUTRAL)
  /\ NEUTRAL = VObj (<["mood" := VStr "neutral"]>
                      (<["intensity" := VNum 0.5]>
                         (<["dominantColor" := VStr "#808080"]> ∅))).
Proof.
  repeat apply conj.
  - rewrite analyzeMoodFromText_result. eauto.
  - intros Hfail. rewrite analyzeMoodFromText_result.
    destruct Hfail as [Hk | key Hk Hn | key Hk Hn | key data Hk Hn Hc
                      | key data output Hk Hn Ht Hp]; rewrite Hk;
      try reflexivity; rewrite Hn; try reflexivity.
    + unfold no_candidate. rewrite Hc. reflexivity.
    + rewrite Ht, Hp. now destruct (fst (no_candidate data)) as [[|]|].
  - reflexivity.
Qed.

(* ===================================================================== *)
(** ** Listings: order and cap *)
(* ===================================================================== *)

Section SortFacts.
Context {A : Type} (cmp : A -> A -> option Z).

Lemma insert_sorted_perm x l : Permutation (insert_sorted cmp x l) (x :: l).
Proof.
  induction l as [|y l IH]; simpl; [reflexivity|].
  destruct (comes_after cmp x y); [|reflexivity].
  rewrite IH. apply perm_swap.
Qed.

Lemma js_sort_perm l : Permutation (js_sort cmp l) l.
Proof.
  induction l as [|x l IH]; simpl; [reflexivity|].
  rewrite insert_sorted_perm. now constructor.
Qed.

(** On elements where the comparator is the difference of a key, the sort
    puts the keys in ascending order. *)
Context (key : A -> Z) (P : A -> Prop).
Hypothesis cmp_key : forall a b, P a -> P b -> cmp a b = Some (key a - key b).

Lemma insert_sorted_sorted x l :
  P x -> Forall P l ->
  StronglySorted (fun a b => key a <= key b) l ->
  StronglySorted (fun a b => key a <= key b) (insert_sorted cmp x l).
Proof.
  intros Hx Hl Hs. induction Hs as [|y l Hs IH Hy]; simpl.
  - repeat constructor.
  - inversion Hl as [|? ? Py Pl]; subst.
    unfold comes_after. rewrite (cmp_key x y Hx Py).
    destruct (Z.ltb_spec 0 (key x - key y)) as [Hlt|Hge].
    + constructor; [now apply IH|].
      rewrite (insert_sorted_perm x l). constructor; [lia | assumption].
    + constructor; [now constructor|].
      constructor; [lia|].
      eapply List.Forall_impl; [|exact Hy]. simpl. intros b Hb. lia.
Qed.

Lemma js_sort_sorted l :
  Forall P l -> StronglySorted (fun a b => key a <= key b) (js_sort cmp l).
Proof.
  induction 1 as [|x l Hx Hl IH]; simpl; [constructor|].
  apply insert_sorted_sorted; [assumption | | assumption].
  now rewrite (js_sort_perm l).
Qed.

End SortFacts.

Lemma dated_In m o :
  dated m = true -> In o (map_values m) ->
  field o "createdAt" = VDate (created_at o).
Proof.
  unfold dated, created_at. rewrite forallb_forall. intros Hd Hin.
  specialize (Hd o Hin). now destruct (field o "createdAt").
Qed.

Lemma newest_first_key `{Runtime} m a b :
  dated m = true -> In a (map_values m) -> In b (map_values m) ->
  newest_first a b = Some (- created_at a - - created_at b).
Proof.
  intros Hd Ha Hb. unfold newest_first.
  rewrite (dated_In m a Hd Ha), (dated_In m b Hd Hb). simpl.
  f_equal. lia.
Qed.

Lemma oldest_first_key `{Runtime} m a b :
  dated m = true -> In a (map_values m) -> In b (map_values m) ->
  oldest_first a b = Some (created_at a - created_at b).
Proof.
  intros Hd Ha Hb. unfold oldest_first.
  now rewrite (dated_In m a Hd Ha), (dated_In m b Hd Hb).
Qed.

Lemma StronglySorted_weaken {A} (R R' : A -> A -> Prop) l :
  (forall a b, R a b -> R' a b) -> StronglySorted R l -> StronglySorted R' l.
Proof.
  intros HR. induction 1 as [|a l Hs IH Ha]; constructor; [assumption|].
  eapply List.Forall_impl; [|exact Ha]. auto.
Qed.

Lemma sorted_newest_first `{Runtime} m (f : obj -> bool) :
  dated m = true ->
  newest_first_sorted (js_sort newest_first (List.filter f (map_values m))).
Proof.
  intros Hd. unfold newest_first_sorted.
  apply StronglySorted_weaken
    with (R := fun a b => - created_at a <= - created_at b);
    [intros a b Hab; lia|].
  apply js_sort_sorted with (P := fun o => In o (map_values m)).
  - intros a b. now apply newest_first_key.
  - rewrite List.Forall_forall. intros o Ho. now apply List.filter_In in Ho.
Qed.

Lemma sorted_oldest_first `{Runtime} m (f : obj -> bool) :
  dated m = true ->
  oldest_first_sorted (js_sort oldest_first (List.filter f (map_values m))).
Proof.
  intros Hd. unfold oldest_first_sorted.
  apply js_sort_sorted with (P := fun o => In o (map_values m)).
  - intros a b. now apply oldest_first_key.
  - rewrite List.Forall_forall. intros o Ho. now apply List.filter_In in Ho.
Qed.

Lemma StronglySorted_firstn {A} (R : A -> A -> Prop) n l :
  StronglySorted R l -> StronglySorted R (firstn n l).
Proof.
  intros Hs. revert n. induction Hs as [|a l Hs IH Ha]; intros [|n]; simpl;
    try constructor.
  - apply IH.
  - rewrite List.Forall_forall in *. intros b Hb. apply Ha.
    rewrite <- (firstn_skipn n l). apply in_or_app. now left.
Qed.

Lemma dated_set m k o :
  dated m = true -> is_date (field o "createdAt") = true ->
  dated (map_set m k o) = true.
Proof.
  unfold dated. rewrite !forallb_forall. intros Hm Ho x Hx.
  destruct (map_values_set_In _ _ _ _ Hx) as [->|Hin]; auto.
Qed.

(** Chat messages and activity logs are only ever created, so in every
    store reached from a dated one they carry the Date the create gave
    them. *)
Lemma step_dated e s op :
  e = ChatMessage \/ e = ActivityLog ->
  dated (table e s) = true -> dated (table e (fst (step s op))) = true.
Proof.
  intros [-> | ->] Hd; destruct op; simpl; unfold_ops; break_lookup; simpl;
    try assumption;
    (apply dated_set; [assumption|]); unfold field;
    now rewrite lookup_insert_eq.
Qed.

Lemma run_dated e ops :
  e = ChatMessage \/ e = ActivityLog ->
  forall s, dated (table e s) = true -> dated (table e (fst (run s ops))) = true.
Proof.
  intros He. induction ops as [|op ops IH]; intros s Hd; simpl; [assumption|].
  pose proof (step_dated e s op He Hd) as Hd1.
  destruct (step s op) as [s1 r]. simpl in Hd1.
  specialize (IH s1 Hd1). now destruct (run s1 ops).
Qed.

Lemma constructor_dated clock e : dated (table e (constructor clock)) = true
                                  \/ e = User.
Proof. destruct e; [now right | left; vm_compute; reflexivity ..]. Qed.

(** In every store a run reaches from the constructor's, the messages of a
    character come oldest first and the logs of a world newest first. *)
Lemma reachable_listings_sorted `{Runtime} (clock : nat -> Z)
    (ops : list Op) (c w : value) :
  let s := fst (run (constructor clock) ops) in
  oldest_first_sorted (getChatMessagesByCharacter s c)
  /\ newest_first_sorted (getActivityLogsByWorld s w None).
Proof.
  cbv zeta. split.
  - apply sorted_oldest_first.
    apply (run_dated ChatMessage); [now left|].
    vm_compute. reflexivity.
  - apply sorted_newest_first.
    apply (run_dated ActivityLog); [now right|].
    vm_compute. reflexivity.
Qed.

(** Where a scene's [createdAt] has been overwritten by text that is no
    date, the comparator yields NaN against it and the order of the listing
    no longer follows the timestamps: scene 1 (the oldest) stays in front of
    scene 3 (the newest). *)
Example undated_scene_breaks_order :
  let scene := object [("worldId", VInt 3)] in
  let s1 := fst (createScene demo_store 1700000000001 scene) in
  let s2 := fst (createScene s1 1700000000002 scene) in
  let s3 := fst (updateScene s2 2 (object [("createdAt", VStr "garbage")])) in
  List.map (fun o => field o "id")
    (@getScenesByWorld example_runtime s3 (VInt 3))
  = [VInt 1; VInt 2; VInt 3]
  /\ dated (scenes s3) = false.
Proof. vm_compute. split; reflexivity. Qed.

(** C5, as stated, fails at the limit 0: the store tests [if (limit)], so a
    supplied 0 is no cap at all.  On the demo store world 1 has three logs,
    and all three come back. *)
Lemma activity_limit_zero_is_no_cap :
  length (@getActivityLogsByWorld example_runtime
            (constructor example_clock) (VInt 1) (Some 0)) = 3%nat
  /\ ~ (Z.of_nat 3 <= 0).
Proof. split; [vm_compute; reflexivity | lia]. Qed.

(** C5, amended.  In a store whose scenes, chat messages and activity logs
    carry the Date that create assigns to [createdAt] (for chat messages and
    activity logs that is every store a run can reach):
    [getScenesByWorld] returns the world's scenes newest first,
    [getChatMessagesByCharacter] returns the character's messages oldest
    first, and [getActivityLogsByWorld] returns the world's logs newest first
    and, for a supplied limit [N >= 1], only the first [N] of them, so at
    most [N].  A supplied limit of 0 is treated as no limit. *)
Theorem listings_sorted_and_capped `{Runtime} (s : MemStorage)
    (w c : value) (N : Z) :
  dated (scenes s) = true ->
  dated (chatMessages s) = true ->
  dated (activityLogs s) = true ->
  1 <= N ->
  (newest_first_sorted (getScenesByWorld s w)
   /\ Permutation (getScenesByWorld s w)
        (List.filter (fun o => strict_eq (field o "worldId") w)
                     (map_values (scenes s))))
  /\ (oldest_first_sorted (getChatMessagesByCharacter s c)
      /\ Permutation (getChatMessagesByCharacter s c)
           (List.filter (fun o => strict_eq (field o "characterId") c)
                        (map_values (chatMessages s))))
  /\ (newest_first_sorted (getActivityLogsByWorld s w None)
      /\ Permutation (getActivityLogsByWorld s w None)
           (List.filter (fun o => strict_eq (field o "worldId") w)
                        (map_values (activityLogs s))))
  /\ (newest_first_sorted (getActivityLogsByWorld s w (Some N))
      /\ getActivityLogsByWorld s w (Some N)
         = firstn (Z.to_nat N) (getActivityLogsByWorld s w None)
      /\ Z.of_nat (length (getActivityLogsByWorld s w (Some N))) <= N)
  /\ getActivityLogsByWorld s w (Some 0) = getActivityLogsByWorld s w None.
Proof.
  intros Hs Hm Hl HN.
  assert (Hcap : getActivityLogsByWorld s w (Some N)
                 = firstn (Z.to_nat N) (getActivityLogsByWorld s w None)).
  { unfold getActivityLogsByWorld, slice0.
    destruct (Z.eqb_spec N 0); [lia|].
    destruct (Z.ltb_spec N 0); [lia | reflexivity]. }
  repeat apply conj.
  - now apply sorted_newest_first.
  - apply js_sort_perm.
  - now apply sorted_oldest_first.
  - apply js_sort_perm.
  - now apply sorted_newest_first.
  - apply js_sort_perm.
  - rewrite Hcap. apply StronglySorted_firstn. now apply sorted_newest_first.
  - exact Hcap.
  - rewrite Hcap, length_firstn. lia.
  - reflexivity.
Qed.

(* ===================================================================== *)
(** ** References between records *)
(* ===================================================================== *)

Lemma map_has_set_mono {T} (m : JsMap T) k v j :
  map_has m j = true -> map_has (map_set m k v) j = true.
Proof.
  unfold map_has. destruct (Z.eq_dec j k) as [->|Hne].
  - now rewrite map_get_set_eq.
  - now rewrite map_get_set_ne.
Qed.

Lemma map_has_delete {T} (m : JsMap T) k j :
  map_has m j = true -> j <> k -> map_has (fst (map_delete m k)) j = true.
Proof.
  unfold map_has. intros Hj Hne. now rewrite map_get_delete_ne.
Qed.

Lemma refers_set_mono m k v x :
  refers m x = true -> refers (map_set m k v) x = true.
Proof.
  unfold refers. destruct (as_key x); [apply map_has_set_mono | trivial].
Qed.

Lemma refers_delete m k x :
  refers m x = true -> points_to x k = false ->
  refers (fst (map_delete m k)) x = true.
Proof.
  unfold refers, points_to. destruct (as_key x) as [j|]; [|trivial].
  intros Hj Hne. apply map_has_delete; [assumption|].
  now apply Z.eqb_neq.
Qed.

Lemma all_refer_parents_set m f c k v :
  all_refer m f c = true -> all_refer (map_set m k v) f c = true.
Proof.
  unfold all_refer. rewrite !forallb_forall. intros Hc o Ho.
  apply refers_set_mono. now apply Hc.
Qed.

Lemma all_refer_parents_delete m f c k :
  all_refer m f c = true -> unreferenced f k c = true ->
  all_refer (fst (map_delete m k)) f c = true.
Proof.
  unfold all_refer, unreferenced. rewrite !forallb_forall. intros Hc Hu o Ho.
  apply refers_delete; [now apply Hc|].
  specialize (Hu o Ho). now apply negb_true_iff in Hu.
Qed.

Lemma all_refer_children_set m f c k o :
  all_refer m f c = true -> refers m (field o f) = true ->
  all_refer m f (map_set c k o) = true.
Proof.
  unfold all_refer. rewrite !forallb_forall. intros Hc Ho x Hx.
  destruct (map_values_set_In _ _ _ _ Hx) as [->|Hin]; auto.
Qed.

Lemma all_refer_children_delete m f c k :
  all_refer m f c = true -> all_refer m f (fst (map_delete c k)) = true.
Proof.
  unfold all_refer. rewrite !forallb_forall. intros Hc x Hx.
  apply Hc. eapply map_values_delete_In. exact Hx.
Qed.

Lemma all_refer_lookup m f c k o :
  all_refer m f c = true -> map_get c k = Some o ->
  refers m (field o f) = true.
Proof.
  unfold all_refer. rewrite forallb_forall. intros Hc Hg.
  apply Hc. eapply map_get_Some_In. exact Hg.
Qed.

Lemma field_created (ins : obj) (id : value) (now : Z) (k : string) :
  k <> "id" -> k <> "createdAt" ->
  field (<["createdAt" := VDate now]> (<["id" := id]> ins)) k = field ins k.
Proof.
  intros H1 H2. unfold field. now rewrite !lookup_insert_ne by congruence.
Qed.

Lemma field_union (d old : obj) (k : string) :
  field (d ∪ old) k =
  match d !! k with
  | Some v => v
  | None => field old k
  end.
Proof.
  unfold field. rewrite lookup_union.
  destruct (d !! k), (old !! k); reflexivity.
Qed.

Lemma refers_updated m c id old d :
  all_refer m "worldId" c = true -> map_get c id = Some old ->
  match d !! "worldId" with
  | Some v => refers m v
  | None => true
  end = true ->
  refers m (field (d ∪ old) "worldId") = true.
Proof.
  intros Hc Hold Hd. rewrite field_union.
  destruct (d !! "worldId"); [assumption|].
  eapply all_refer_lookup; cycle 1; [eassumption | assumption].
Qed.

(** The invariant survives every operation that respects it. *)
Lemma step_referential s op :
  referential s = true -> respects s op = true ->
  referential (fst (step s op)) = true.
Proof.
  unfold referential. rewrite !andb_true_iff.
  intros [[[H1 H2] H3] H4] Hresp.
  destruct op; simpl in Hresp |- *; unfold_ops; break_lookup; simpl;
    rewrite ?andb_true_iff in Hresp; rewrite ?andb_true_iff;
    repeat apply conj;
    try assumption;
    try (apply all_refer_parents_set; assumption);
    try (apply all_refer_children_delete; assumption);
    try (apply all_refer_parents_delete; tauto);
    try (apply all_refer_children_set; [assumption|];
         first [ now rewrite field_created by discriminate
               | eapply refers_updated; cycle 1;
                 [eassumption | eassumption | assumption]
               | unfold field; rewrite lookup_insert_ne by discriminate;
                 eapply all_refer_lookup; cycle 1;
                 [eassumption | assumption] ]).
Qed.

Lemma run_referential ops :
  forall s,
    referential s = true -> respects_all s ops = true ->
    referential (fst (run s ops)) = true.
Proof.
  induction ops as [|op ops IH]; intros s Href Hok; simpl; [assumption|].
  simpl in Hok. apply andb_true_iff in Hok as [Hop Hok].
  pose proof (step_referential s op Href Hop) as Href1.
  destruct (step s op) as [s1 r]. simpl in *.
  specialize (IH s1 Href1 Hok). now destruct (run s1 ops).
Qed.

(** C2, as stated, fails.  The demo store satisfies referential integrity;
    [deleteWorld(1)] removes the world alone and leaves its character, its
    logs and its messages behind, and [createCharacter] with the [worldId]
    99 of no world stores the character as given.  The DELETE handler adds
    nothing to the store call. *)
Lemma referential_integrity_is_not_enforced :
  referential (constructor example_clock) = true
  /\ referential (fst (deleteWorld (constructor example_clock) 1)) = false
  /\ referential
       (fst (@delete_world example_runtime (constructor example_clock) "1"))
     = false
  /\ referential
       (fst (createCharacter (constructor example_clock) 0
               (object [("worldId", VInt 99); ("name", VStr "Hero")])))
     = false.
Proof. repeat apply conj; vm_compute; reflexivity. Qed.

(** C2, amended.  Referential integrity holds in the store the constructor
    builds and in every store reached from it by operations that respect
    the references: a create whose [worldId] (for a chat message,
    [characterId]) is the key of an existing parent, an update that does not
    name [worldId] or names an existing world, a delete of a world or
    character that no record points to, and every other operation.  The
    store itself checks none of these conditions. *)
Theorem referential_integrity_when_respected (clock : nat -> Z)
    (ops : list Op) :
  respects_all (constructor clock) ops = true ->
  referential (constructor clock) = true
  /\ referential (fst (run (constructor clock) ops)) = true.
Proof.
  intros Hops.
  assert (H0 : referential (constructor clock) = true)
    by (vm_compute; reflexivity).
  split; [exact H0|]. now apply run_referential.
Qed.

(* ===================================================================== *)
(** ** The character-response endpoint *)
(* ===================================================================== *)

Lemma as_key_VInt z : as_key (VInt z) = Some z.
Proof.
  unfold as_key, VInt, inject_Z. simpl.
  rewrite Z.mod_1_r, Z.div_1_r. reflexivity.
Qed.

Lemma bounded_above s e k :
  bounded s -> counter e s <= k -> map_get (table e s) k = None.
Proof.
  intros Hb Hk. apply map_get_None_keys. intros Hin.
  specialize (Hb e). rewrite List.Forall_forall in Hb.
  specialize (Hb _ Hin). simpl in Hb. lia.
Qed.

(** C3, amended.  Let the request name a stored character whose [id]
    property is the id it is stored under, and let the handler answer 200.
    Then the store holds a new chat message, under the
    id the message counter had, whose [mood], [moodIntensity] and
    [moodColor] are the [mood], [intensity] and [dominantColor] of the mood
    analysis of the generated response, and the character's record carries
    the same three values in [currentMood], [currentMoodIntensity] and
    [currentMoodColor], its other properties unchanged. *)
Theorem mood_is_persisted `{Runtime} (env : Env) (s : MemStorage) (now : Z)
    (body characterId : value) (cid : Z) (character : obj)
    (s' : MemStorage) (resp : HttpResponse) :
  bounded s ->
  get_prop body "characterId" = Ok characterId ->
  parseInt characterId = Some cid ->
  getCharacter s cid = Some character ->
  field character "id" = VInt cid ->
  post_generate_character_response env s now body = (s', resp) ->
  status resp = 200 ->
  exists response moodAnalysis mood intensity dominantColor message updated,
    fst (generateCharacterResponse env character
           (getChatMessagesByCharacter s (VInt cid))) = Ok response
    /\ fst (analyzeMoodFromText env response) = Ok moodAnalysis
    /\ get_prop moodAnalysis "mood" = Ok mood
    /\ get_prop moodAnalysis "intensity" = Ok intensity
    /\ get_prop moodAnalysis "dominantColor" = Ok dominantColor
    /\ payload resp
       = Some (VObj (object [("message", response); ("mood", moodAnalysis)]))
    /\ map_get (chatMessages s) (chatMessageIdCounter s) = None
    /\ map_get (chatMessages s') (chatMessageIdCounter s) = Some message
    /\ field message "characterId" = VInt cid
    /\ field message "content" = response
    /\ field message "mood" = mood
    /\ field message "moodIntensity" = intensity
    /\ field message "moodColor" = dominantColor
    /\ getCharacter s' cid = Some updated
    /\ field updated "currentMood" = mood
    /\ field updated "currentMoodIntensity" = intensity
    /\ field updated "currentMoodColor" = dominantColor
    /\ (forall k,
          k <> "currentMood" -> k <> "currentMoodIntensity" ->
          k <> "currentMoodColor" -> updated !! k = character !! k).
Proof.
  intros Hb Hbody Hparse Hchar Hid Hrun Hstatus.
  unfold post_generate_character_response in Hrun.
  rewrite Hbody, Hparse, Hchar, Hid in Hrun.
  destruct (truthy characterId);
    [| simpl in Hrun; injection Hrun as <- <-; discriminate Hstatus].
  simpl negb in Hrun. cbv iota in Hrun.
  destruct (fst (generateCharacterResponse env character
                   (getChatMessagesByCharacter s (VInt cid))))
    as [response|] eqn:Hgen;
    [| injection Hrun as <- <-; discriminate Hstatus].
  destruct (fst (analyzeMoodFromText env response))
    as [moodAnalysis|] eqn:Hmood;
    [| injection Hrun as <- <-; discriminate Hstatus].
  destruct (get_prop moodAnalysis "mood") as [mood|] eqn:Hm;
    [| injection Hrun as <- <-; discriminate Hstatus].
  destruct (get_prop moodAnalysis "intensity") as [intensity|] eqn:Hi;
    [| injection Hrun as <- <-; discriminate Hstatus].
  destruct (get_prop moodAnalysis "dominantColor") as [dominantColor|] eqn:Hd;
    [| injection Hrun as <- <-; discriminate Hstatus].
  rewrite as_key_VInt in Hrun.
  unfold createChatMessage, updateCharacter in Hrun. simpl in Hrun.
  unfold getCharacter in Hchar. rewrite Hchar in Hrun. simpl in Hrun.
  injection Hrun as <- <-.
  exists response, moodAnalysis, mood, intensity, dominantColor.
  eexists _, _.
  repeat apply conj.
  1-5: first [assumption | reflexivity].
  - reflexivity.
  - exact (bounded_above s ChatMessage _ Hb (Z.le_refl _)).
  - apply map_get_set_eq.
  - reflexivity.
  - reflexivity.
  - reflexivity.
  - reflexivity.
  - reflexivity.
  - unfold getCharacter. simpl. apply map_get_set_eq.
  - rewrite field_union. reflexivity.
  - rewrite field_union. reflexivity.
  - rewrite field_union. reflexivity.
  - intros k H1 H2 H3. rewrite lookup_union_r; [reflexivity|].
    unfold object. simpl.
    rewrite !lookup_insert_ne by congruence. apply lookup_empty.
Qed.

(** C3, as stated, fails for a character whose [id] property no longer is
    its key.  A PATCH of character 1 with [{ id: 99 }] stores such a record
    (the generic update overwrites [id]).  The response endpoint, asked for
    character 1, then answers 200, creates the message, and hands the
    record's [id], 99, to [updateCharacter], which finds nothing: the
    character's record receives no mood. *)
Lemma mood_not_persisted_after_id_overwrite :
  let env := {| GEMINI_API_KEY := None; network := fun _ => FetchRejects |} in
  let s := fst (updateCharacter (constructor example_clock) 1
                  (object [("id", VInt 99)])) in
  let out := @post_generate_character_response example_runtime env s 0
               (VObj (object [("characterId", VInt 1)])) in
  status (snd out) = 200
  /\ option_map (fun c => field c "currentMood") (getCharacter (fst out) 1)
     = Some VUndef
  /\ getCharacter (fst out) 99 = None
  /\ option_map (fun m => field m "mood")
       (map_get (chatMessages (fst out)) (chatMessageIdCounter s))
     = Some (VStr "neutral").
Proof. cbv zeta. repeat apply conj; vm_compute; reflexivity. Qed.

(* ===================================================================== *)
(** ** End to end: a new world and its first character *)
(* ===================================================================== *)

(** Validation hands over the accepted properties as they came. *)
Lemma parse_columns_lookup cols (input out : obj) k v :
  Schema.parse_columns cols input = Some out ->
  In k (List.map Schema.col_name cols) ->
  input !! k = Some v ->
  out !! k = Some v.
Proof.
  revert out. induction cols as [|c cs IH]; intros out Hp Hin Hk; simpl in *.
  - contradiction.
  - destruct (Schema.check_column c (input !! Schema.col_name c))
      as [r|] eqn:Hc; [|discriminate].
    destruct (Schema.parse_columns cs input) as [out'|] eqn:Hcs;
      [|discriminate].
    injection Hp as <-.
    destruct (String.eqb_spec (Schema.col_name c) k) as [Heq|Hne].
    + rewrite Heq in *. rewrite Hk in Hc. unfold Schema.check_column in Hc.
      assert (Hr : r = Some v).
      { destruct v;
          repeat match type of Hc with
                 | (if ?b then _ else _) = _ => destruct b
                 end; congruence. }
      subst r. apply lookup_insert_eq.
    + assert (Hout' : out' !! k = Some v).
      { apply IH; [reflexivity | | assumption].
        destruct Hin as [Heq|Hin]; [contradiction | assumption]. }
      destruct r; [now rewrite lookup_insert_ne | assumption].
Qed.

Lemma map_values_set_fresh {T} (m : JsMap T) k v :
  map_get m k = None -> map_values (map_set m k v) = map_values m ++ [v].
Proof.
  intros Hk. rewrite map_set_fresh by assumption.
  unfold map_values. now rewrite List.map_app.
Qed.

Lemma filter_none {A} (f : A -> bool) l :
  forallb (fun x => negb (f x)) l = true -> List.filter f l = [].
Proof.
  induction l as [|x l IH]; simpl; [reflexivity|].
  intros Hl. apply andb_true_iff in Hl as [Hx Hl].
  apply negb_true_iff in Hx. rewrite Hx. now apply IH.
Qed.

Lemma strict_eq_VInt z : strict_eq (VInt z) (VInt z) = true.
Proof. unfold strict_eq, VInt. apply Qeq_bool_iff. reflexivity. Qed.

(** What a successful POST /api/worlds leaves behind. *)
Lemma post_worlds_created `{Runtime} s t_world t_log body s1 r1 :
  bounded s ->
  post_worlds s t_world t_log body = (s1, r1) ->
  status r1 = 201 ->
  exists world log,
    r1 = json 201 (VObj world)
    /\ field world "id" = VInt (worldIdCounter s)
    /\ field log "worldId" = VInt (worldIdCounter s)
    /\ field log "activityType" = VStr "WORLD_CREATED"
    /\ field log "createdAt" = VDate t_log
    /\ worlds s1 = worlds s ++ [(worldIdCounter s, world)]
    /\ activityLogs s1 = activityLogs s ++ [(activityLogIdCounter s, log)]
    /\ characters s1 = characters s
    /\ characterIdCounter s1 = characterIdCounter s
    /\ activityLogIdCounter s1 = activityLogIdCounter s + 1.
Proof.
  intros Hb Hrun Hst. unfold post_worlds in Hrun.
  destruct (Schema.parse _ _) as [validated|]; cycle 1.
  { injection Hrun as <- <-. discriminate Hst. }
  unfold createWorld, createActivityLog in Hrun. simpl in Hrun.
  injection Hrun as <- <-. eexists _, _.
  repeat apply conj.
  7: { simpl. apply map_set_fresh. exact (bounded_fresh s ActivityLog Hb). }
  - reflexivity.
  - unfold field. rewrite lookup_insert_ne by discriminate.
    now rewrite lookup_insert_eq.
  - rewrite field_created by discriminate.
    unfold field at 1. rewrite lookup_insert_eq. cbn [default from_option].
    unfold field. rewrite lookup_insert_ne by discriminate.
    now rewrite lookup_insert_eq.
  - rewrite field_created by discriminate. reflexivity.
  - unfold field. now rewrite lookup_insert_eq.
  - simpl. apply map_set_fresh. exact (bounded_fresh s World Hb).
  - reflexivity.
  - reflexivity.
  - reflexivity.
Qed.

(** What a successful POST /api/characters leaves behind. *)
Lemma post_characters_created `{Runtime} s t_character t_log body s2 r2 w :
  map_get (characters s) (characterIdCounter s) = None ->
  map_get (activityLogs s) (activityLogIdCounter s) = None ->
  get_prop body "worldId" = Ok w ->
  w <> VUndef ->
  post_characters s t_character t_log body = (s2, r2) ->
  status r2 = 201 ->
  exists character log,
    r2 = json 201 (VObj character)
    /\ field character "worldId" = w
    /\ field log "worldId" = w
    /\ field log "activityType" = VStr "CHARACTER_CREATED"
    /\ field log "createdAt" = VDate t_log
    /\ worlds s2 = worlds s
    /\ characters s2 = characters s ++ [(characterIdCounter s, character)]
    /\ activityLogs s2 = activityLogs s ++ [(activityLogIdCounter s, log)].
Proof.
  intros Hc Hl Hw Hdef Hrun Hst. unfold post_characters in Hrun.
  destruct (Schema.parse _ _) as [validated|] eqn:Hparse; cycle 1.
  { injection Hrun as <- <-. discriminate Hst. }
  assert (Hv : field validated "worldId" = w).
  { unfold Schema.parse in Hparse.
    destruct body as [| | | | | | |m]; try discriminate.
    destruct (Schema.parse_columns _ m) as [out|] eqn:Hcols; [|discriminate].
    injection Hparse as ->. simpl in Hw. injection Hw as Hw.
    unfold field in Hw |- *.
    destruct (m !! "worldId") as [v|] eqn:Hm; simpl in Hw;
      [|congruence].
    subst v.
    erewrite parse_columns_lookup; [reflexivity | exact Hcols | | exact Hm].
    simpl. tauto. }
  unfold createCharacter, createActivityLog in Hrun. simpl in Hrun.
  injection Hrun as <- <-. eexists _, _.
  repeat apply conj.
  8: { simpl. now apply map_set_fresh. }
  - reflexivity.
  - rewrite field_created by discriminate. exact Hv.
  - rewrite field_created by discriminate.
    unfold field at 1. rewrite lookup_insert_eq. cbn [default from_option].
    rewrite field_created by discriminate. exact Hv.
  - rewrite field_created by discriminate. reflexivity.
  - unfold field. now rewrite lookup_insert_eq.
  - reflexivity.
  - simpl. now apply map_set_fresh.
Qed.

Lemma map_get_app_last {T} (m : JsMap T) k v j :
  map_get (m ++ [(k, v)]) j =
  match map_get m j with
  | Some x => Some x
  | None => if Z.eqb k j then Some v else None
  end.
Proof.
  induction m as [|[k' v'] m IH]; simpl; [reflexivity|].
  destruct (Z.eqb k' j); [reflexivity | exact IH].
Qed.

Lemma map_values_app_last {T} (m : JsMap T) k v :
  map_values (m ++ [(k, v)]) = map_values m ++ [v].
Proof. unfold map_values. now rewrite List.map_app. Qed.

(** C9, as stated, fails when the two logs carry the same timestamp: the
    sort is stable and its comparator sees no difference, so the logs stay
    in insertion order, WORLD_CREATED first.  On the demo store, with the
    clock reading 1000 for all four [new Date()]: *)
Lemma same_millisecond_keeps_insertion_order :
  let s := constructor example_clock in
  let s1 := fst (@post_worlds example_runtime s 1000 1000
                   (VObj (object
                      [ ("name", VStr "Test");
                        ("description",
                         VStr "A test world with enough characters.") ]))) in
  let s2 := fst (@post_characters example_runtime s1 1000 1000
                   (VObj (object
                      [ ("worldId", VInt 4); ("name", VStr "Hero");
                        ("role", VStr "Knight");
                        ("personality", VStr "Brave and loyal to a fault.");
                        ("memory", VObj ∅) ]))) in
  match payload (@get_world_activity example_runtime s2 "4" None) with
  | Some (VArr logs) =>
      List.map (fun l => match l with
                         | VObj o => field o "activityType"
                         | _ => VUndef
                         end) logs
  | _ => []
  end = [VStr "WORLD_CREATED"; VStr "CHARACTER_CREATED"].
Proof. vm_compute. reflexivity. Qed.

(** C9, amended.  In a reachable store where no character and no log names
    the id the next world will get, let POST /api/worlds create world [N]
    and POST /api/characters create a character with [worldId] [N].  Then
    GET /api/worlds/N/characters returns exactly that character, and
    GET /api/worlds/N/activity returns exactly the two logs WORLD_CREATED
    and CHARACTER_CREATED: CHARACTER_CREATED first when its timestamp is
    strictly later than that of WORLD_CREATED, and in insertion order,
    WORLD_CREATED first, when the two timestamps do not differ that way. *)
Theorem new_world_scenario `{Runtime} (s : MemStorage)
    (t_world t_wlog t_char t_clog : Z) (body_w body_c : value)
    (s1 s2 : MemStorage) (r1 r2 : HttpResponse) (path : string) :
  bounded s ->
  fresh_world s (worldIdCounter s) = true ->
  post_worlds s t_world t_wlog body_w = (s1, r1) ->
  status r1 = 201 ->
  get_prop body_c "worldId" = Ok (VInt (worldIdCounter s)) ->
  post_characters s1 t_char t_clog body_c = (s2, r2) ->
  status r2 = 201 ->
  parseInt (VStr path) = Some (worldIdCounter s) ->
  exists world character log_w log_c,
    r1 = json 201 (VObj world)
    /\ field world "id" = VInt (worldIdCounter s)
    /\ r2 = json 201 (VObj character)
    /\ get_world_characters s2 path = json 200 (VArr [VObj character])
    /\ field log_w "activityType" = VStr "WORLD_CREATED"
    /\ field log_c "activityType" = VStr "CHARACTER_CREATED"
    /\ get_world_activity s2 path None
       = json 200
           (VArr (if t_wlog <? t_clog
                  then [VObj log_c; VObj log_w]
                  else [VObj log_w; VObj log_c])).
Proof.
  intros Hb Hfresh Hw Hst1 Hbody Hc Hst2 Hpath.
  destruct (post_worlds_created _ _ _ _ _ _ Hb Hw Hst1)
    as (world & log_w & Hr1 & Hwid & Hlw & Htw & Hdw & Hworlds & Hlogs
        & Hchars & Hcc & Hlc).
  assert (Hfc : map_get (characters s1) (characterIdCounter s1) = None).
  { rewrite Hchars, Hcc. exact (bounded_fresh s Character Hb). }
  assert (Hfl : map_get (activityLogs s1) (activityLogIdCounter s1) = None).
  { rewrite Hlogs, Hlc, map_get_app_last.
    assert (Hnext : map_get (activityLogs s) (activityLogIdCounter s + 1)
                    = None)
      by (apply (bounded_above s ActivityLog); [assumption | simpl; lia]).
    rewrite Hnext.
    destruct (Z.eqb_spec (activityLogIdCounter s)
                (activityLogIdCounter s + 1)); [lia | reflexivity]. }
  destruct (post_characters_created _ _ _ _ _ _ _ Hfc Hfl Hbody
              ltac:(discriminate) Hc Hst2)
    as (character & log_c & Hr2 & Hcw & Hlcw & Htc & Hdc & Hworlds2
        & Hchars2 & Hlogs2).
  apply andb_true_iff in Hfresh as [Hfresh_c Hfresh_l].
  assert (Hfound : lookup_param (worlds s2) path
                   = Some (worldIdCounter s, world)).
  { unfold lookup_param. rewrite Hpath, Hworlds2, Hworlds, map_get_app_last.
    pose proof (bounded_fresh s World Hb) as Hnew. simpl in Hnew.
    rewrite Hnew. now rewrite Z.eqb_refl. }
  exists world, character, log_w, log_c.
  repeat apply conj; try assumption.
  - unfold get_world_characters. rewrite Hfound.
    unfold getCharactersByWorld.
    rewrite Hchars2, Hchars, map_values_app_last, List.filter_app.
    rewrite (filter_none _ _ Hfresh_c). simpl.
    now rewrite Hcw, strict_eq_VInt.
  - unfold get_world_activity. rewrite Hfound.
    unfold getActivityLogsByWorld.
    rewrite Hlogs2, Hlogs, !map_values_app_last, !List.filter_app.
    rewrite (filter_none _ _ Hfresh_l). simpl.
    rewrite Hlw, Hlcw, strict_eq_VInt. simpl.
    unfold comes_after, newest_first. rewrite Hdw, Hdc. simpl.
    destruct (Z.ltb_spec 0 (t_clog - t_wlog)), (Z.ltb_spec t_wlog t_clog);
      try lia; reflexivity.
Qed.

(* ===================================================================== *)
(** ** The theorems at concrete inputs *)
(* ===================================================================== *)

(** Scene 99 does not exist in the demo store: updating it changes
    nothing. *)
Lemma update_missing_is_noop_witness :
  map_get (table (entity_of UScene) demo_store) 99 = None
  /\ update UScene demo_store 99 (object [("title", VStr "New")])
     = (demo_store, None).
Proof.
  assert (Hmiss : map_get (table (entity_of UScene) demo_store) 99 = None)
    by (vm_compute; reflexivity).
  split; [exact Hmiss|].
  exact (update_missing_is_noop UScene demo_store 99 _ Hmiss).
Defined.

(** Character 4 updated with a new name and a foreign id. *)
Lemma update_stores_shallow_merge_witness :
  let data : obj := object [("id", VInt 7); ("name", VStr "Heroine")] in
  map_get (table (entity_of UCharacter) hero_store) 4 = Some hero
  /\ map_get (table (entity_of UCharacter)
                (fst (update UCharacter hero_store 4 data))) 4
     = Some (data ∪ hero).
Proof.
  cbv zeta.
  assert (Hold : map_get (table (entity_of UCharacter) hero_store) 4
                 = Some hero) by (vm_compute; reflexivity).
  split; [exact Hold|].
  exact (proj1 (proj2 (update_stores_shallow_merge UCharacter hero_store 4
                         hero _ Hold))).
Defined.

(** Two PATCHes of character 4, [{a:1}] then [{b:2}]: both keys stay. *)
Lemma memory_is_merged_by_the_route_witness :
  let patch s body := fst (@patch_character_memory example_runtime s "4" body) in
  let body_a := VObj (object [("a", VInt 1)]) in
  let body_b := VObj (object [("b", VInt 2)]) in
  @parseInt example_runtime (VStr "4") = Some 4
  /\ getCharacter hero_store 4 = Some hero
  /\ exists c2 merged,
       getCharacter (patch (patch hero_store body_a) body_b) 4 = Some c2
       /\ field c2 "memory" = VObj merged
       /\ merged !! "a" = Some (VInt 1)
       /\ merged !! "b" = Some (VInt 2).
Proof.
  cbv zeta.
  assert (Hp : @parseInt example_runtime (VStr "4") = Some 4)
    by (vm_compute; reflexivity).
  assert (Hc : getCharacter hero_store 4 = Some hero)
    by (vm_compute; reflexivity).
  split; [exact Hp|]. split; [exact Hc|].
  destruct (memory_is_merged_by_the_route (H := example_runtime)
              hero_store "4" 4 hero Hp Hc) as (_ & _ & Htwo).
  destruct (Htwo (VObj (object [("a", VInt 1)]))
                 (VObj (object [("b", VInt 2)])))
    as (c2 & merged & Hget & Hmem & Hlater & Hearlier).
  exists c2, merged. split; [exact Hget|]. split; [exact Hmem|]. split.
  - apply Hearlier; vm_compute; reflexivity.
  - apply Hlater. vm_compute. reflexivity.
Defined.

(** A world, a character in it, then both deleted, children first. *)
Lemma referential_integrity_when_respected_witness :
  let ops :=
    [ CreateWorld 5 (object [("name", VStr "Test")]);
      CreateCharacter 6 (object [("worldId", VInt 4)]);
      DeleteCharacter 4;
      DeleteWorld 4 ] in
  respects_all (constructor example_clock) ops = true
  /\ referential (fst (run (constructor example_clock) ops)) = true.
Proof.
  cbv zeta.
  assert (Hops : respects_all (constructor example_clock)
                   [ CreateWorld 5 (object [("name", VStr "Test")]);
                     CreateCharacter 6 (object [("worldId", VInt 4)]);
                     DeleteCharacter 4;
                     DeleteWorld 4 ] = true) by (vm_compute; reflexivity).
  split; [exact Hops|].
  exact (proj2 (referential_integrity_when_respected example_clock _ Hops)).
Defined.

(** The demo store: world 1 has three logs, and a limit of 2 keeps two. *)
Lemma listings_sorted_and_capped_witness :
  dated (scenes demo_store) = true
  /\ dated (chatMessages demo_store) = true
  /\ dated (activityLogs demo_store) = true
  /\ 1 <= 2
  /\ newest_first_sorted
       (@getActivityLogsByWorld example_runtime demo_store (VInt 1) (Some 2))
  /\ Z.of_nat
       (length (@getActivityLogsByWorld example_runtime demo_store (VInt 1)
                  (Some 2))) <= 2.
Proof.
  assert (Hs : dated (scenes demo_store) = true) by (vm_compute; reflexivity).
  assert (Hm : dated (chatMessages demo_store) = true)
    by (vm_compute; reflexivity).
  assert (Hl : dated (activityLogs demo_store) = true)
    by (vm_compute; reflexivity).
  assert (HN : 1 <= 2) by lia.
  destruct (listings_sorted_and_capped (H := example_runtime) demo_store
              (VInt 1) (VInt 1) 2 Hs Hm Hl HN)
    as (_ & _ & _ & (Hsorted & _ & Hlen) & _).
  repeat apply conj; assumption.
Defined.

(** The service answers with text that is no JSON: the neutral mood. *)
Lemma analyzeMoodFromText_never_raises_witness :
  fst (@analyzeMoodFromText example_runtime (answering "I am fine")
         (VStr "Hello"))
  = Ok NEUTRAL.
Proof.
  apply (proj1 (proj2 (analyzeMoodFromText_never_raises
                         (H := example_runtime)
                         (answering "I am fine") (VStr "Hello")))).
  eapply (ParseFailure (H := example_runtime)); reflexivity.
Defined.

(** Character 4 asked to respond while no credential is configured: the
    fallback text is analysed as neutral, and the new message and the
    character carry the same mood. *)
Lemma mood_is_persisted_witness :
  let body := VObj (object [("characterId", VInt 4)]) in
  let out :=
    @post_generate_character_response example_runtime offline hero_store 9
      body in
  bounded hero_store
  /\ get_prop body "characterId" = Ok (VInt 4)
  /\ @parseInt example_runtime (VInt 4) = Some 4
  /\ getCharacter hero_store 4 = Some hero
  /\ field hero "id" = VInt 4
  /\ status (snd out) = 200
  /\ exists message updated,
       map_get (chatMessages (fst out)) (chatMessageIdCounter hero_store)
       = Some message
       /\ getCharacter (fst out) 4 = Some updated
       /\ field message "mood" = field updated "currentMood"
       /\ field message "moodIntensity" = field updated "currentMoodIntensity"
       /\ field message "moodColor" = field updated "currentMoodColor".
Proof.
  cbv zeta.
  assert (Hb : bounded hero_store)
    by (intros e; destruct e; vm_compute; repeat constructor).
  assert (Hbody : get_prop (VObj (object [("characterId", VInt 4)]))
                    "characterId" = Ok (VInt 4)) by reflexivity.
  assert (Hp : @parseInt example_runtime (VInt 4) = Some 4)
    by (vm_compute; reflexivity).
  assert (Hc : getCharacter hero_store 4 = Some hero)
    by (vm_compute; reflexivity).
  assert (Hid : field hero "id" = VInt 4) by reflexivity.
  assert (Hst : status (snd (@post_generate_character_response
                               example_runtime offline hero_store 9
                               (VObj (object [("characterId", VInt 4)]))))
                = 200) by (vm_compute; reflexivity).
  repeat (split; [assumption|]).
  destruct (mood_is_persisted (H := example_runtime) offline hero_store 9
              _ _ 4 hero _ _ Hb Hbody Hp Hc Hid
              (surjective_pairing _) Hst)
    as (response & moodAnalysis & mood & intensity & dominantColor & message
        & updated & _ & _ & _ & _ & _ & _ & _ & Hmsg & _ & _ & Hm1 & Hm2 & Hm3
        & Hupd & Hc1 & Hc2 & Hc3 & _).
  exists message, updated.
  repeat apply conj; [exact Hmsg | exact Hupd | congruence ..].
Defined.

(** The scenario on the demo store, the four clock readings one
    millisecond apart: world 4, its character, and the two logs, the
    character's first. *)
Lemma new_world_scenario_witness :
  let body_w :=
    VObj (object [ ("name", VStr "Test");
                   ("description",
                    VStr "A test world with enough characters.") ]) in
  let body_c :=
    VObj (object [ ("worldId", VInt 4); ("name", VStr "Hero");
                   ("role", VStr "Knight");
                   ("personality", VStr "Brave and loyal to a fault.");
                   ("memory", VObj ∅) ]) in
  let out1 := @post_worlds example_runtime demo_store 1000 1001 body_w in
  let out2 := @post_characters example_runtime (fst out1) 1002 1003 body_c in
  bounded demo_store
  /\ fresh_world demo_store (worldIdCounter demo_store) = true
  /\ status (snd out1) = 201
  /\ get_prop body_c "worldId" = Ok (VInt (worldIdCounter demo_store))
  /\ status (snd out2) = 201
  /\ @parseInt example_runtime (VStr "4") = Some (worldIdCounter demo_store)
  /\ exists character log_w log_c,
       @get_world_characters example_runtime (fst out2) "4"
       = json 200 (VArr [VObj character])
       /\ field log_w "activityType" = VStr "WORLD_CREATED"
       /\ field log_c "activityType" = VStr "CHARACTER_CREATED"
       /\ @get_world_activity example_runtime (fst out2) "4" None
          = json 200 (VArr [VObj log_c; VObj log_w]).
Proof.
  cbv zeta.
  assert (Hb : bounded demo_store)
    by (intros e; destruct e; vm_compute; repeat constructor).
  assert (Hf : fresh_world demo_store (worldIdCounter demo_store) = true)
    by (vm_compute; reflexivity).
  match goal with
  | |- _ /\ _ /\ status (snd ?o1) = _ /\ ?hw /\ status (snd ?o2) = _ /\ _ =>
      assert (Hs1 : status (snd o1) = 201) by (vm_compute; reflexivity);
      assert (Hw : hw) by (vm_compute; reflexivity);
      assert (Hs2 : status (snd o2) = 201) by (vm_compute; reflexivity)
  end.
  assert (Hp : @parseInt example_runtime (VStr "4")
               = Some (worldIdCounter demo_store))
    by (vm_compute; reflexivity).
  repeat (split; [assumption|]).
  destruct (new_world_scenario (H := example_runtime) demo_store
              1000 1001 1002 1003 _ _ _ _ _ _ "4" Hb Hf
              (surjective_pairing _) Hs1 Hw (surjective_pairing _) Hs2 Hp)
    as (world & character & log_w & log_c & _ & _ & _ & Hchars & Htw & Htc
        & Hact).
  exists character, log_w, log_c.
  repeat apply conj; assumption.
Defined.

(* ===================================================================== *)
(** ** Further properties of the store *)
(* ===================================================================== *)

Lemma set_table_same e s : set_table e (table e s) s = s.
Proof. now destruct e, s. Qed.

Lemma set_table_twice e m1 m2 s :
  set_table e m2 (set_table e m1 s) = set_table e m2 s.
Proof. now destruct e. Qed.

Lemma map_set_twice {T} (m : JsMap T) k v1 v2 :
  map_set (map_set m k v1) k v2 = map_set m k v2.
Proof.
  induction m as [|[k' v'] m IH]; simpl.
  - now rewrite Z.eqb_refl.
  - destruct (Z.eqb_spec k' k) as [->|Hne]; simpl.
    + now rewrite Z.eqb_refl.
    + destruct (Z.eqb_spec k' k); [contradiction|]. now rewrite IH.
Qed.

Lemma map_set_same {T} (m : JsMap T) k v :
  map_get m k = Some v -> map_set m k v = m.
Proof.
  induction m as [|[k' v'] m IH]; simpl; [discriminate|].
  destruct (Z.eqb_spec k' k) as [->|Hne].
  - now intros [= ->].
  - intros Hg. now rewrite IH.
Qed.

Lemma map_delete_missing {T} (m : JsMap T) k :
  map_get m k = None -> fst (map_delete m k) = m.
Proof.
  unfold map_delete; simpl.
  induction m as [|[k' v'] m IH]; simpl; [reflexivity|].
  destruct (Z.eqb_spec k' k); [discriminate|]. simpl.
  intros Hg. now rewrite IH.
Qed.

Lemma map_keys_delete {T} (m : JsMap T) k :
  map_keys (fst (map_delete m k))
  = List.filter (fun j => negb (Z.eqb j k)) (map_keys m).
Proof.
  unfold map_delete, map_keys; simpl.
  induction m as [|[k' v'] m IH]; simpl; [reflexivity|].
  destruct (Z.eqb k' k); simpl; now rewrite IH.
Qed.

Lemma remove_unfold u s id :
  remove u s id =
  (set_table (entity_of u) (fst (map_delete (table (entity_of u) s) id)) s,
   map_has (table (entity_of u) s) id).
Proof. now destruct u. Qed.

(** X1.  Deleting a world, character or scene returns whether the id was
    stored.  Afterwards the id reads as absent, every other id of the type
    reads as before and keeps its place in the order, and the other tables
    and all counters are untouched; a delete of an id that is not stored
    returns false and hands back the very same store. *)
Theorem delete_removes_one_record (u : Updatable) (s : MemStorage) (id : Z) :
  let s' := fst (remove u s id) in
  snd (remove u s id) = map_has (table (entity_of u) s) id
  /\ map_get (table (entity_of u) s') id = None
  /\ (forall j, j <> id ->
        map_get (table (entity_of u) s') j = map_get (table (entity_of u) s) j)
  /\ map_keys (table (entity_of u) s')
     = List.filter (fun j => negb (Z.eqb j id))
                   (map_keys (table (entity_of u) s))
  /\ (forall e, e <> entity_of u -> table e s' = table e s)
  /\ (forall e, counter e s' = counter e s)
  /\ (map_has (table (entity_of u) s) id = false -> s' = s).
Proof.
  cbv zeta. rewrite remove_unfold. cbn [fst snd].
  repeat apply conj.
  - reflexivity.
  - rewrite table_set_table_eq. apply map_get_delete_eq.
  - intros j Hj. rewrite table_set_table_eq. now apply map_get_delete_ne.
  - rewrite table_set_table_eq. apply map_keys_delete.
  - intros e He. now apply table_set_table_ne.
  - intros e. apply counter_set_table.
  - unfold map_has. intros Hm.
    destruct (map_get (table (entity_of u) s) id) eqn:Hg; [discriminate|].
    rewrite map_delete_missing by assumption. apply set_table_same.
Qed.

Lemma create_unfold e s now payload :
  create e s now payload =
  let r :=
    match e with
    | User => <["id" := VInt (counter e s)]> payload
    | _ => <["createdAt" := VDate now]>
             (<["id" := VInt (counter e s)]> payload)
    end in
  (set_table e (map_set (table e s) (counter e s) r)
     (set_counter e (counter e s + 1) s), r).
Proof. now destruct e. Qed.

(** X2.  In a store whose keys lie below the counters, a create returns a
    record that carries the counter of its type as [id] and, except for
    users, the clock reading as [createdAt], whatever the payload says of
    them, and the payload's other properties as given.  The record is stored
    under that id, after all earlier records, which read as before; the
    counter of the type moves up by one and nothing else changes. *)
Theorem create_then_get (e : Entity) (s : MemStorage) (now : Z)
    (payload : obj) :
  bounded s ->
  let s' := fst (create e s now payload) in
  let r := snd (create e s now payload) in
  field r "id" = VInt (counter e s)
  /\ (e <> User -> field r "createdAt" = VDate now)
  /\ (forall k, k <> "id" -> k <> "createdAt" -> r !! k = payload !! k)
  /\ map_get (table e s') (counter e s) = Some r
  /\ table e s' = table e s ++ [(counter e s, r)]
  /\ (forall j, j <> counter e s ->
        map_get (table e s') j = map_get (table e s) j)
  /\ counter e s' = counter e s + 1
  /\ (forall e', e' <> e ->
        table e' s' = table e' s /\ counter e' s' = counter e' s).
Proof.
  intros Hb. cbv zeta. rewrite create_unfold. cbn [fst snd].
  rewrite table_set_table_eq.
  repeat apply conj.
  - destruct e; unfold field;
      rewrite ?(lookup_insert_ne _ "createdAt" "id") by discriminate;
      now rewrite lookup_insert_eq.
  - intros He. destruct e; [contradiction | ..]; unfold field;
      now rewrite lookup_insert_eq.
  - intros k H1 H2. destruct e; now rewrite !lookup_insert_ne by congruence.
  - apply map_get_set_eq.
  - apply map_set_fresh. now apply bounded_fresh.
  - intros j Hj. now apply map_get_set_ne.
  - rewrite counter_set_table. apply counter_set_counter_eq.
  - intros e' He'. split.
    + rewrite table_set_table_ne by assumption. apply table_set_counter.
    + rewrite counter_set_table. now apply counter_set_counter_ne.
Qed.

(** X3.  Two generic updates of the same id in a row are one update with
    the merged data, the later data winning; this holds for a missing id
    too, where all three calls do nothing. *)
Theorem update_twice_is_one_update (u : Updatable) (s : MemStorage) (i : Z)
    (d1 d2 : obj) :
  update u (fst (update u s i d1)) i d2 = update u s i (d2 ∪ d1).
Proof.
  rewrite !update_unfold.
  destruct (map_get (table (entity_of u) s) i) as [old|] eqn:Hold.
  - cbn [fst]. rewrite table_set_table_eq, map_get_set_eq.
    rewrite set_table_twice, map_set_twice.
    now rewrite (assoc_L (∪)).
  - cbn [fst]. now rewrite Hold.
Qed.

(** X4.  A generic update whose data the stored record already contains, the
    empty data in particular, leaves the store exactly as it was and returns
    the record. *)
Theorem update_with_contained_data (u : Updatable) (s : MemStorage) (i : Z)
    (old data : obj) :
  map_get (table (entity_of u) s) i = Some old ->
  data ⊆ old ->
  update u s i data = (s, Some old).
Proof.
  intros Hold Hsub. rewrite update_unfold, Hold.
  assert (Hu : data ∪ old = old).
  { apply map_eq. intros k. rewrite lookup_union.
    destruct (data !! k) as [v|] eqn:Hk.
    - rewrite (lookup_weaken _ _ _ _ Hk Hsub). reflexivity.
    - now destruct (old !! k). }
  rewrite Hu, map_set_same by assumption. now rewrite set_table_same.
Qed.

Lemma find_app {A} (f : A -> bool) l1 l2 :
  List.find f (l1 ++ l2) =
  match List.find f l1 with
  | Some x => Some x
  | None => List.find f l2
  end.
Proof.
  induction l1 as [|x l1 IH]; simpl; [reflexivity|].
  now destruct (f x).
Qed.

(** X5.  In a store whose keys lie below the counters, a created character
    shows up at the end of the listing of the world its payload names and in
    no other world's listing, and a created world at the end of the listing
    of the user its payload names; the entries that were listed stay, in
    their order.  A created user is found by its name unless an earlier user
    has the name already: the store does not refuse the duplicate, and the
    lookup keeps returning the earlier user. *)
Theorem created_records_are_listed (s : MemStorage) (now : Z) (payload : obj)
    (w : value) (name : string) :
  bounded s ->
  getCharactersByWorld (fst (createCharacter s now payload)) w
  = getCharactersByWorld s w
    ++ (if strict_eq (field payload "worldId") w
        then [snd (createCharacter s now payload)] else [])
  /\ getWorldsByUser (fst (createWorld s now payload)) w
     = getWorldsByUser s w
       ++ (if strict_eq (field payload "userId") w
           then [snd (createWorld s now payload)] else [])
  /\ getUserByUsername (fst (createUser s payload)) name
     = match getUserByUsername s name with
       | Some earlier => Some earlier
       | None =>
           if strict_eq (field payload "username") (VStr name)
           then Some (snd (createUser s payload)) else None
       end.
Proof.
  intros Hb.
  pose proof (bounded_fresh s Character Hb) as Hc.
  pose proof (bounded_fresh s World Hb) as Hw.
  pose proof (bounded_fresh s User Hb) as Hu.
  simpl in Hc, Hw, Hu.
  unfold getCharactersByWorld, getWorldsByUser, getUserByUsername,
    createCharacter, createWorld, createUser. cbn [fst snd].
  repeat apply conj.
  - cbn [characters set_table set_counter].
    rewrite map_values_set_fresh, List.filter_app by assumption.
    cbn [List.filter]. rewrite field_created by discriminate.
    now destruct (strict_eq (field payload "worldId") w).
  - cbn [worlds set_table set_counter].
    rewrite map_values_set_fresh, List.filter_app by assumption.
    cbn [List.filter]. rewrite field_created by discriminate.
    now destruct (strict_eq (field payload "userId") w).
  - cbn [users set_table set_counter].
    rewrite map_values_set_fresh, find_app by assumption.
    cbn [List.find].
    replace (field (<["id" := VInt (userIdCounter s)]> payload) "username")
      with (field payload "username")
      by (unfold field; now rewrite lookup_insert_ne by discriminate).
    reflexivity.
Qed.

Lemma Forall_map_set {T} (P : Z * T -> Prop) (m : JsMap T) k v :
  Forall P m -> P (k, v) -> Forall P (map_set m k v).
Proof.
  intros Hm Hv. induction Hm as [|[k' v'] m Hp Hm IH]; simpl.
  - now constructor.
  - destruct (Z.eqb k' k); constructor; assumption.
Qed.

Lemma Forall_map_delete {T} (P : Z * T -> Prop) (m : JsMap T) k :
  Forall P m -> Forall P (fst (map_delete m k)).
Proof.
  unfold map_delete; simpl. rewrite !List.Forall_forall.
  intros Hm x Hx. apply Hm. now apply List.filter_In in Hx.
Qed.

Lemma map_get_In_pair {T} (m : JsMap T) k v :
  map_get m k = Some v -> In (k, v) m.
Proof.
  induction m as [|[k' v'] m IH]; simpl; [discriminate|].
  destruct (Z.eqb_spec k' k) as [->|Hne].
  - intros [= ->]. now left.
  - intros Hg. right. now apply IH.
Qed.

Lemma Forall_lookup {T} (P : Z * T -> Prop) (m : JsMap T) k v :
  Forall P m -> map_get m k = Some v -> P (k, v).
Proof.
  intros Hm Hg. rewrite List.Forall_forall in Hm.
  apply Hm. now apply map_get_In_pair.
Qed.

Lemma field_id_created (payload : obj) (id : value) (now : Z) :
  field (<["createdAt" := VDate now]> (<["id" := id]> payload)) "id" = id.
Proof.
  unfold field. rewrite lookup_insert_ne by discriminate.
  now rewrite lookup_insert_eq.
Qed.

Lemma step_ids_are_keys s op :
  ids_are_keys s -> keeps_id op = true -> ids_are_keys (fst (step s op)).
Proof.
  intros Hs Hop e. pose proof (Hs e) as He.
  destruct op; simpl in Hop |- *; unfold_ops; simpl;
    repeat match goal with
           | |- context [map_get ?m ?k] =>
               let Hg := fresh "Hg" in destruct (map_get m k) eqn:Hg
           end; simpl;
    destruct e; simpl in *; try assumption;
    try (apply Forall_map_delete; assumption);
    (apply Forall_map_set; [assumption|]); simpl;
    try (apply field_id_created);
    try (unfold field; now rewrite lookup_insert_eq).
  all: try (unfold field; rewrite lookup_insert_ne by discriminate;
            exact (Forall_lookup _ _ _ _ He Hg)).
  all: rewrite field_union;
    match goal with
    | H : match ?d !! "id" with _ => _ end = true |- _ =>
        destruct (d !! "id"); [discriminate|]
    end;
    exact (Forall_lookup _ _ _ _ He Hg).
Qed.

Lemma is_VInt_spec (v : value) (k : Z) :
  match v with
  | VNum q => Z.eqb (Qnum q) k && Pos.eqb (Qden q) 1
  | _ => false
  end = true ->
  v = VInt k.
Proof.
  destruct v as [| | |[n d]| | | |]; try discriminate.
  cbn [Qnum Qden]. intros Hq. apply andb_true_iff in Hq as [Hn Hd].
  apply Z.eqb_eq in Hn. apply Pos.eqb_eq in Hd. now subst.
Qed.

Lemma constructor_ids_are_keys clock : ids_are_keys (constructor clock).
Proof.
  intros e. apply List.Forall_forall. intros [k o] Hin.
  apply is_VInt_spec.
  assert (Hall : forallb
            (fun p => match field (snd p) "id" with
                      | VNum q => Z.eqb (Qnum q) (fst p) && Pos.eqb (Qden q) 1
                      | _ => false
                      end) (table e (constructor clock)) = true)
    by (destruct e; vm_compute; reflexivity).
  rewrite forallb_forall in Hall. exact (Hall _ Hin).
Qed.

(** X6.  Start from the store the constructor builds and run any sequence
    of store operations in which no generic update names [id] in its data.
    Then every record that can be read under an id carries that id in its
    [id] property. *)
Theorem ids_stay_keys (clock : nat -> Z) (ops : list Op)
    (e : Entity) (k : Z) (r : obj) :
  forallb keeps_id ops = true ->
  map_get (table e (fst (run (constructor clock) ops))) k = Some r ->
  field r "id" = VInt k.
Proof.
  intros Hops Hget.
  assert (Hinv : forall ops s,
             ids_are_keys s -> forallb keeps_id ops = true ->
             ids_are_keys (fst (run s ops))).
  { clear. induction ops as [|op ops IH]; intros s Hs Hops; simpl;
      [assumption|].
    simpl in Hops. apply andb_true_iff in Hops as [Hop Hops].
    pose proof (step_ids_are_keys s op Hs Hop) as Hs1.
    destruct (step s op) as [s1 x]. simpl in Hs1.
    specialize (IH s1 Hs1 Hops). now destruct (run s1 ops). }
  exact (Forall_lookup _ _ _ _
           (Hinv ops _ (constructor_ids_are_keys clock) Hops e) Hget).
Qed.

(* ===================================================================== *)
(** ** The API as sequences of store operations *)
(* ===================================================================== *)

Lemma run_app ops1 ops2 s :
  fst (run s (ops1 ++ ops2)) = fst (run (fst (run s ops1)) ops2).
Proof.
  revert s. induction ops1 as [|op ops1 IH]; intros s; simpl; [reflexivity|].
  destruct (step s op) as [s1 r]. specialize (IH s1).
  destruct (run s1 (ops1 ++ ops2)) as [s2 rs].
  destruct (run s1 ops1) as [s3 rs']. simpl in *. exact IH.
Qed.

Lemma lookup_param_Some `{Runtime} m param id r :
  lookup_param m param = Some (id, r) -> map_get m id = Some r.
Proof.
  unfold lookup_param. destruct (parseInt (VStr param)) as [k|]; [|discriminate].
  destruct (map_get m k) eqn:Hg; [|discriminate]. now intros [= <- <-].
Qed.

Ltac found_param H k rec :=
  match goal with
  | |- context [lookup_param ?m ?p] =>
      destruct (lookup_param m p) as [[k rec]|] eqn:H;
      [apply lookup_param_Some in H |]
  end.

(** Whatever a handler does to the store, it does through the store's
    operations. *)
Lemma handle_is_a_run `{Runtime} env s r :
  exists ops, fst (handle env s r) = fst (run s ops).
Proof.
  destruct r; simpl; try (now exists []).
  - (* POST /api/worlds *)
    unfold post_worlds. destruct (Schema.parse _ _); [|now exists []].
    eexists [CreateWorld _ _; CreateActivityLog _ _]. reflexivity.
  - (* PATCH /api/worlds/:id *)
    unfold patch_world. found_param Hp k old; [|now exists []].
    eexists [UpdateWorld k (spread body); CreateActivityLog _ _].
    simpl. unfold updateWorld. rewrite Hp. reflexivity.
  - (* DELETE /api/worlds/:id *)
    unfold delete_world. found_param Hp k old; [|now exists []].
    exists [DeleteWorld k]. simpl. unfold deleteWorld, map_delete.
    now destruct (map_has (worlds s) k).
  - (* POST /api/characters *)
    unfold post_characters. destruct (Schema.parse _ _); [|now exists []].
    eexists [CreateCharacter _ _; CreateActivityLog _ _]. reflexivity.
  - (* PATCH /api/characters/:id *)
    unfold patch_character. found_param Hp k old; [|now exists []].
    eexists [UpdateCharacter k (spread body); CreateActivityLog _ _].
    simpl. unfold updateCharacter. rewrite Hp. reflexivity.
  - (* PATCH /api/characters/:id/memory *)
    unfold patch_character_memory. found_param Hp k old; [|now exists []].
    eexists [UpdateCharacterMemory k _].
    simpl. unfold updateCharacterMemory. rewrite Hp. reflexivity.
  - (* DELETE /api/characters/:id *)
    unfold delete_character. found_param Hp k old; [|now exists []].
    exists [DeleteCharacter k]. simpl. unfold deleteCharacter, map_delete.
    now destruct (map_has (characters s) k).
  - (* POST /api/chat-messages *)
    unfold post_chat_messages.
    destruct (Schema.parse _ _) as [v|]; [|now exists []].
    cbn [createChatMessage fst snd].
    match goal with
    | |- context [match ?c with Some _ => _ | None => _ end] =>
        destruct c as [character|]
    end;
      [destruct (truthy (field v "isUserMessage"));
       [match goal with
        | |- context [if ?b then _ else _] => destruct b
        end|]|].
    + eexists [CreateChatMessage _ _; CreateActivityLog _ _]. reflexivity.
    + eexists [CreateChatMessage _ _]. reflexivity.
    + eexists [CreateChatMessage _ _]. reflexivity.
    + eexists [CreateChatMessage _ _]. reflexivity.
  - (* POST /api/generate-character-response *)
    unfold post_generate_character_response.
    destruct (get_prop body "characterId") as [characterId|];
      [|now exists []].
    destruct (truthy characterId); [|now exists []]. cbn [negb].
    match goal with
    | |- context [match ?c with Some _ => _ | None => _ end] =>
        destruct c as [character|]; [|now exists []]
    end.
    destruct (fst (generateCharacterResponse _ _ _)) as [response|];
      [|now exists []].
    destruct (fst (analyzeMoodFromText _ _)) as [moodAnalysis|];
      [|now exists []].
    destruct (get_prop moodAnalysis "mood"); [|now exists []].
    destruct (get_prop moodAnalysis "intensity"); [|now exists []].
    destruct (get_prop moodAnalysis "dominantColor"); [|now exists []].
    cbn [createChatMessage fst snd].
    destruct (as_key (field character "id")) as [k|].
    + eexists [CreateChatMessage _ _; UpdateCharacter k _]. reflexivity.
    + eexists [CreateChatMessage _ _]. reflexivity.
  - (* POST /api/scenes *)
    unfold post_scenes. destruct (Schema.parse _ _); [|now exists []].
    eexists [CreateScene _ _; CreateActivityLog _ _]. reflexivity.
  - (* PATCH /api/scenes/:id *)
    unfold patch_scene. found_param Hp k old; [|now exists []].
    eexists [UpdateScene k (spread body); CreateActivityLog _ _].
    simpl. unfold updateScene. rewrite Hp. reflexivity.
  - (* DELETE /api/scenes/:id *)
    unfold delete_scene. found_param Hp k old; [|now exists []].
    exists [DeleteScene k]. simpl. unfold deleteScene, map_delete.
    now destruct (map_has (scenes s) k).
Qed.

Lemma serve_is_a_run `{Runtime} env rs :
  forall s, exists ops, fst (serve env s rs) = fst (run s ops).
Proof.
  induction rs as [|r rs IH]; intros s; simpl; [now exists []|].
  destruct (handle_is_a_run env s r) as [ops1 H1].
  destruct (handle env s r) as [s1 resp]. simpl in H1.
  destruct (IH s1) as [ops2 H2].
  destruct (serve env s1 rs) as [s2 resps]. simpl in H2 |- *.
  exists (ops1 ++ ops2). now rewrite run_app, <- H1.
Qed.

Lemma step_appends e s op :
  e = ChatMessage \/ e = ActivityLog ->
  bounded s ->
  exists added, table e (fst (step s op)) = table e s ++ added.
Proof.
  intros He Hb.
  pose proof (bounded_fresh s ChatMessage Hb) as Hm.
  pose proof (bounded_fresh s ActivityLog Hb) as Hl.
  simpl in Hm, Hl.
  destruct He as [-> | ->]; destruct op; simpl; unfold_ops; break_lookup;
    simpl;
    first [ exists []; now rewrite app_nil_r
          | eexists [_]; now apply map_set_fresh ].
Qed.

Lemma run_appends e ops :
  e = ChatMessage \/ e = ActivityLog ->
  forall s, bounded s ->
    exists added, table e (fst (run s ops)) = table e s ++ added.
Proof.
  intros He. induction ops as [|op ops IH]; intros s Hb; simpl.
  - exists []. now rewrite app_nil_r.
  - destruct (step_appends e s op He Hb) as [a1 H1].
    pose proof (step_bounded s op Hb) as Hb1.
    destruct (step s op) as [s1 x]. simpl in H1, Hb1.
    destruct (IH s1 Hb1) as [a2 H2].
    destruct (run s1 ops) as [s2 xs]. simpl in H2 |- *.
    exists (a1 ++ a2). now rewrite H2, H1, <- app_assoc.
Qed.

(** X7.  Chat messages and activity logs are append-only through the whole
    API: whatever requests are served, in a store whose keys lie below the
    counters, the messages and the logs that were stored are still there
    afterwards, unchanged and in the same places, followed by the ones
    added. *)
Theorem messages_and_logs_are_append_only `{Runtime} (env : Env)
    (s : MemStorage) (requests : list ApiRequest) (e : Entity) :
  bounded s ->
  e = ChatMessage \/ e = ActivityLog ->
  exists added,
    table e (fst (serve env s requests)) = table e s ++ added.
Proof.
  intros Hb He.
  destruct (serve_is_a_run env requests s) as [ops ->].
  now apply run_appends.
Qed.


Lemma lookup_param_deleted `{Runtime} m param k r :
  lookup_param m param = Some (k, r) ->
  lookup_param (fst (map_delete m k)) param = None.
Proof.
  unfold lookup_param.
  destruct (parseInt (VStr param)) as [j|]; [|discriminate].
  destruct (map_get m j) eqn:Hg; [|discriminate]. intros [= -> <-].
  now rewrite map_get_delete_eq.
Qed.

Lemma delete_request_result `{Runtime} env u s id :
  exists not_found,
    handle env s (delete_request u id) =
    match lookup_param (table (entity_of u) s) id with
    | Some (k, _) =>
        (set_table (entity_of u)
           (fst (map_delete (table (entity_of u) s) k)) s, send 204)
    | None => (s, json 404 not_found)
    end.
Proof.
  destruct u; simpl; unfold delete_world, delete_character, delete_scene;
    eexists;
    match goal with
    | |- context [lookup_param ?m id] =>
        destruct (lookup_param m id) as [[k old]|] eqn:Hfound
    end;
    try reflexivity;
    apply lookup_param_Some in Hfound;
    unfold deleteWorld, deleteCharacter, deleteScene, map_delete, map_has;
    rewrite Hfound; reflexivity.
Qed.

Lemma get_request_status `{Runtime} env u s id :
  fst (handle env s (get_request u id)) = s
  /\ status (snd (handle env s (get_request u id))) =
     match lookup_param (table (entity_of u) s) id with
     | Some _ => 200
     | None => 404
     end.
Proof.
  destruct u; simpl; unfold get_world, get_character, get_scene;
    (split; [reflexivity|]);
    match goal with
    | |- context [lookup_param ?m id] =>
        destruct (lookup_param m id) as [[k old]|]
    end; reflexivity.
Qed.

(** X9.  A DELETE of a world, character or scene answers 204 when the id in
    the path names a stored record and 404 otherwise, never 500: the branch
    for a failed delete cannot be reached.  After a 204 the record is gone:
    a GET of the same path answers 404, and so does a second DELETE, which
    changes nothing. *)
Theorem delete_then_get_is_404 `{Runtime} (env : Env) (u : Updatable)
    (s : MemStorage) (id : string) :
  let deleted := handle env s (delete_request u id) in
  (status (snd deleted) = 204 \/ status (snd deleted) = 404)
  /\ (status (snd deleted) = 204 <->
      lookup_param (table (entity_of u) s) id <> None)
  /\ (status (snd deleted) = 204 ->
      status (snd (handle env (fst deleted) (get_request u id))) = 404
      /\ status (snd (handle env (fst deleted) (delete_request u id))) = 404
      /\ fst (handle env (fst deleted) (delete_request u id)) = fst deleted).
Proof.
  cbv zeta.
  destruct (delete_request_result env u s id) as [msg Hdel].
  rewrite Hdel.
  destruct (lookup_param (table (entity_of u) s) id) as [[k old]|] eqn:Hfound.
  - cbn [fst snd]. split; [|split].
    + now left.
    + split; [discriminate | reflexivity].
    + intros _.
      assert (Hgone : lookup_param
                (table (entity_of u)
                   (set_table (entity_of u)
                      (fst (map_delete (table (entity_of u) s) k)) s)) id
              = None).
      { rewrite table_set_table_eq. eapply lookup_param_deleted.
        exact Hfound. }
      destruct (get_request_status env u
                  (set_table (entity_of u)
                     (fst (map_delete (table (entity_of u) s) k)) s) id)
        as [_ Hget].
      rewrite Hget, Hgone.
      destruct (delete_request_result env u
                  (set_table (entity_of u)
                     (fst (map_delete (table (entity_of u) s) k)) s) id)
        as [msg2 Hdel2].
      rewrite Hdel2, Hgone. repeat split.
  - cbn [fst snd]. split; [|split].
    + now right.
    + split; [discriminate | intros Hn; now contradiction Hn].
    + discriminate.
Qed.

(* ===================================================================== *)
(** ** Further properties of the handlers *)
(* ===================================================================== *)


Lemma js_sort_length {A} (cmp : A -> A -> option Z) l :
  length (js_sort cmp l) = length l.
Proof. apply Permutation_length, js_sort_perm. Qed.

Lemma strict_eq_key v k : as_key v = Some k -> strict_eq v v = true.
Proof.
  destruct v; try discriminate. intros _. simpl.
  apply Qeq_bool_iff. reflexivity.
Qed.



(* ===================================================================== *)
(** ** Further properties of the AI helpers and of the endpoint over them *)
(* ===================================================================== *)

Lemma unreachable_generate env character messages :
  unreachable env ->
  fst (generateCharacterResponse env character messages) = Ok FALLBACK.
Proof.
  intros Hdown. rewrite generateCharacterResponse_result.
  destruct (api_key env) as [key|] eqn:Hkey; [|reflexivity].
  destruct Hdown as [Hno|Hnet]; [congruence|].
  destruct (network env (generate_request key character messages))
    as [| |data] eqn:Hn; [reflexivity | reflexivity |].
  now destruct (Hnet _ _ Hn).
Qed.

Lemma unreachable_analyze `{Runtime} env text :
  unreachable env -> fst (analyzeMoodFromText env text) = Ok NEUTRAL.
Proof.
  intros Hdown. rewrite analyzeMoodFromText_result.
  destruct (api_key env) as [key|] eqn:Hkey; [|reflexivity].
  destruct Hdown as [Hno|Hnet]; [congruence|].
  destruct (network env (mood_request key text)) as [| |data] eqn:Hn;
    [reflexivity | reflexivity |].
  now destruct (Hnet _ _ Hn).
Qed.

Lemma analyzeMoodFromText_returns `{Runtime} env text :
  exists analysis, fst (analyzeMoodFromText env text) = Ok analysis.
Proof. rewrite analyzeMoodFromText_result. eauto. Qed.

(** X13.  A failure of the AI service is no failure of the endpoint.  When
    no answer of the service can be read (no credential, or every request
    fails), POST /api/generate-character-response for a stored character
    still answers 200: the payload carries the fixed fallback text and the
    neutral mood, and the fallback text is stored as a new message of the
    character, with the neutral mood. *)
Theorem generate_answers_200_without_service `{Runtime} (env : Env)
    (s : MemStorage) (now : Z) (body characterId : value) (cid : Z)
    (character : obj) :
  bounded s ->
  unreachable env ->
  get_prop body "characterId" = Ok characterId ->
  truthy characterId = true ->
  parseInt characterId = Some cid ->
  getCharacter s cid = Some character ->
  let out := post_generate_character_response env s now body in
  snd out
  = json 200 (VObj (object [("message", FALLBACK); ("mood", NEUTRAL)]))
  /\ exists stored,
       chatMessages (fst out)
       = chatMessages s ++ [(chatMessageIdCounter s, stored)]
       /\ field stored "characterId" = field character "id"
       /\ field stored "isUserMessage" = VBool false
       /\ field stored "content" = FALLBACK
       /\ field stored "mood" = VStr "neutral".
Proof.
  intros Hb Hdown Hbody Htruthy Hparse Hchar out. subst out.
  pose proof (bounded_fresh s ChatMessage Hb) as Hnew. simpl in Hnew.
  unfold post_generate_character_response.
  rewrite Hbody, Htruthy, Hparse, Hchar. cbn [negb].
  rewrite (unreachable_generate _ _ _ Hdown), (unreachable_analyze _ _ Hdown).
  assert (Hm : get_prop NEUTRAL "mood" = Ok (VStr "neutral"))
    by reflexivity.
  assert (Hi : get_prop NEUTRAL "intensity" = Ok (VNum 0.5)) by reflexivity.
  assert (Hc : get_prop NEUTRAL "dominantColor" = Ok (VStr "#808080"))
    by reflexivity.
  rewrite Hm, Hi, Hc. cbn [createChatMessage fst snd].
  split; [reflexivity|].
  eexists. split.
  - destruct (as_key (field character "id")) as [k|].
    + unfold updateCharacter.
      cbn [characters set_table set_counter].
      destruct (map_get (characters s) k); simpl;
        now apply map_set_fresh.
    + simpl. now apply map_set_fresh.
  - repeat apply conj; rewrite field_created by discriminate; reflexivity.
Qed.

Lemma get_prop_throws v k e :
  get_prop v k = Throw e -> v = VNull \/ v = VUndef.
Proof.
  destruct v; simpl; try discriminate; auto.
  - destruct (String.eqb k "length"); discriminate.
  - destruct (String.eqb k "length"); discriminate.
Qed.

Lemma get_prop_of_nothing v k :
  v = VNull \/ v = VUndef -> get_prop v k = Throw TypeError.
Proof. now intros [-> | ->]. Qed.

(** The four outcomes of POST /api/generate-character-response. *)
Lemma generate_status_cases `{Runtime} env s now body :
  let st := status (snd (post_generate_character_response env s now body)) in
  ((body = VNull \/ body = VUndef) /\ st = 500)
  \/ (exists characterId,
        get_prop body "characterId" = Ok characterId
        /\ truthy characterId = false /\ st = 400)
  \/ (exists characterId,
        get_prop body "characterId" = Ok characterId
        /\ truthy characterId = true
        /\ match parseInt characterId with
           | Some id => getCharacter s id
           | None => None
           end = None
        /\ st = 404)
  \/ (exists characterId character response analysis,
        get_prop body "characterId" = Ok characterId
        /\ truthy characterId = true
        /\ match parseInt characterId with
           | Some id => getCharacter s id
           | None => None
           end = Some character
        /\ fst (generateCharacterResponse env character
                  (getChatMessagesByCharacter s (field character "id")))
           = Ok response
        /\ fst (analyzeMoodFromText env response) = Ok analysis
        /\ ((analysis = VNull \/ analysis = VUndef) /\ st = 500
            \/ (analysis <> VNull /\ analysis <> VUndef) /\ st = 200)).
Proof.
  intros st. subst st. unfold post_generate_character_response.
  destruct (get_prop body "characterId") as [characterId|e] eqn:Hbody.
  2: { left. split; [now apply get_prop_throws in Hbody | reflexivity]. }
  right. destruct (truthy characterId) eqn:Htruthy; cbn [negb].
  2: { left. now exists characterId. }
  right.
  destruct (match parseInt characterId with
            | Some id => getCharacter s id
            | None => None
            end) as [character|] eqn:Hchar.
  2: { left. now exists characterId. }
  right.
  destruct (generateCharacterResponse_never_raises env character
              (getChatMessagesByCharacter s (field character "id")))
    as [response Hr].
  destruct (analyzeMoodFromText_returns env response) as [analysis Ha].
  exists characterId, character, response, analysis.
  rewrite Hr, Ha.
  do 5 (split; [first [assumption | reflexivity]|]).
  destruct analysis; simpl;
    try (left; split; [auto | reflexivity]);
    try (right; split; [split; discriminate | reflexivity]).
Qed.


(** The guard and the extraction read the answer; they neither call the
    service nor write to the console. *)
Lemma no_candidate_is_silent data : snd (no_candidate data) = [].
Proof.
  unfold no_candidate, bind, lift, ret.
  repeat match goal with
         | |- context [get_prop ?v ?k] => destruct (get_prop v k)
         | |- context [get_index ?v ?i] => destruct (get_index v i)
         | |- context [if ?c then _ else _] => destruct c
         end; reflexivity.
Qed.

Lemma candidate_text_is_silent data : snd (candidate_text data) = [].
Proof.
  unfold candidate_text, bind, lift.
  repeat match goal with
         | |- context [get_prop ?v ?k] => destruct (get_prop v k)
         | |- context [get_index ?v ?i] => destruct (get_index v i)
         end; reflexivity.
Qed.

Lemma one_candidate_passes text :
  no_candidate (one_candidate text) = (Ok false, [])
  /\ candidate_text (one_candidate text) = (Ok (VStr text), []).
Proof. split; reflexivity. Qed.


#[local] Opaque no_candidate candidate_text.


#[local] Transparent no_candidate candidate_text.

(** X17.  The request of the response generator opens with the character
    description and continues with the most recent messages of the history
    it is given, in their order: all of them when there are at most ten,
    the last ten otherwise.  Each is sent under the role user when its
    [isUserMessage] is truthy and assistant when not.  Older messages never
    reach the model. *)
Theorem request_carries_last_ten_messages (key : string) (character : obj)
    (messages : list obj) :
  exists older recent,
    messages = older ++ recent
    /\ length recent = Nat.min 10 (length messages)
    /\ req_contents (generate_request key character messages)
       = ("user", CharacterDescription character)
         :: List.map
              (fun msg =>
                 (if truthy (field msg "isUserMessage")
                  then "user" else "assistant",
                  MessageText (field msg "content")))
              recent.
Proof.
  exists (firstn (length messages - 10) messages),
         (skipn (length messages - 10) messages).
  split; [symmetry; apply firstn_skipn|].
  split; [rewrite length_skipn; lia|].
  unfold generate_request, slice_last. cbn [req_contents].
  now rewrite List.map_map.
Qed.

(* ===================================================================== *)
(** ** Stripping the code fences *)
(* ===================================================================== *)

Lemma prefix_cons a s1 b s2 :
  String.prefix (String a s1) (String b s2)
  = Ascii.eqb b a && String.prefix s1 s2.
Proof.
  cbn [String.prefix]. destruct (ascii_dec a b) as [->|Hne].
  - now rewrite Ascii.eqb_refl.
  - destruct (Ascii.eqb_spec b a); [congruence | reflexivity].
Qed.

Lemma prefix_fence_leading s :
  String.prefix "```" s = true <-> (3 <= leading_backticks s)%nat.
Proof.
  destruct s as [|c1 [|c2 [|c3 s]]];
    rewrite ?prefix_cons; cbn [leading_backticks String.prefix];
    repeat match goal with
           | |- context [Ascii.eqb ?a "`"] => destruct (Ascii.eqb a "`")
           end; cbn [andb]; split; intros; try congruence; try lia.
  now destruct s.
Qed.

Lemma prefix_json_fence s :
  String.prefix "```json" s = true -> String.prefix "```" s = true.
Proof.
  destruct s as [|c1 [|c2 [|c3 s]]];
    rewrite ?prefix_cons; cbn [String.prefix];
    repeat match goal with
           | |- context [Ascii.eqb ?a "`"] => destruct (Ascii.eqb a "`")
           end; cbn [andb]; intros Hp; try discriminate Hp.
  now destruct s.
Qed.

Lemma strip_keeps s c s' :
  s = String c s' ->
  String.prefix "```" s = false ->
  strip_fences_from 0 s = String c (strip_fences_from 0 s').
Proof.
  intros -> Hno. cbn [strip_fences_from].
  destruct (String.prefix "```json" (String c s')) eqn:Hj.
  - apply prefix_json_fence in Hj. congruence.
  - now rewrite Hno.
Qed.

Lemma strip_fences_invariant n :
  forall s, (String.length s <= n)%nat ->
    (forall k, has_fence (strip_fences_from k s) = false)
    /\ (String.prefix "```" s = false ->
        leading_backticks (strip_fences_from 0 s) = leading_backticks s).
Proof.
  induction n as [|n IH]; intros s Hlen.
  - destruct s; [|simpl in Hlen; lia]. split; [now intros [|k]|reflexivity].
  - destruct s as [|c s']; [split; [now intros [|k]|reflexivity]|].
    simpl in Hlen. assert (Hlen' : (String.length s' <= n)%nat) by lia.
    destruct (IH s' Hlen') as [IHfence IHlead].
    assert (Hlead : String.prefix "```" (String c s') = false ->
                    leading_backticks (strip_fences_from 0 (String c s'))
                    = leading_backticks (String c s')).
    { intros Hno. rewrite (strip_keeps _ c s' eq_refl Hno).
      cbn [leading_backticks].
      destruct (Ascii.eqb_spec c "`") as [->|]; [|reflexivity].
      f_equal. apply IHlead.
      destruct (String.prefix "```" s') eqn:Hs'; [|reflexivity].
      apply prefix_fence_leading in Hs'.
      assert (Hfour : (3 <= leading_backticks (String "`" s'))%nat)
        by (cbn [leading_backticks]; rewrite Ascii.eqb_refl; lia).
      apply prefix_fence_leading in Hfour. congruence. }
    split; [|exact Hlead].
    intros [|k]; [|apply IHfence].
    destruct (String.prefix "```" (String c s')) eqn:Hno.
    + cbn [strip_fences_from]. rewrite Hno.
      destruct (String.prefix "```json" (String c s')); apply IHfence.
    + rewrite (strip_keeps _ c s' eq_refl Hno).
      cbn [has_fence]. rewrite IHfence, orb_false_r.
      destruct (String.prefix "```" (String c (strip_fences_from 0 s')))
        eqn:Hout; [|reflexivity].
      apply prefix_fence_leading in Hout.
      rewrite <- (strip_keeps _ c s' eq_refl Hno), (Hlead eq_refl) in Hout.
      apply prefix_fence_leading in Hout. congruence.
Qed.

Lemma strip_fences_fixes s : has_fence s = false -> strip_fences s = s.
Proof.
  unfold strip_fences. induction s as [|c s IH]; [reflexivity|].
  cbn [has_fence]. intros Hno. apply orb_false_iff in Hno as [Hhere Hrest].
  rewrite (strip_keeps _ c s eq_refl Hhere). now rewrite IH.
Qed.

(** X18.  What the fence removal leaves contains no fence, so removing
    fences twice is removing them once; and it returns a text unchanged
    exactly when the text contains no fence. *)
Theorem strip_fences_leaves_no_fence (s : string) :
  has_fence (strip_fences s) = false
  /\ strip_fences (strip_fences s) = strip_fences s
  /\ (strip_fences s = s <-> has_fence s = false).
Proof.
  assert (Hclean : has_fence (strip_fences s) = false)
    by apply (strip_fences_invariant (String.length s) s (le_n _)).
  split; [exact Hclean|]. split; [now apply strip_fences_fixes|].
  split; [intros Heq; now rewrite <- Heq | apply strip_fences_fixes].
Qed.

Lemma strip_past_plain a t :
  backtick_free a = true ->
  strip_fences_from 0 (a +:+ t) = a +:+ strip_fences_from 0 t.
Proof.
  induction a as [|c a IH]; [reflexivity|].
  cbn [backtick_free]. intros Hfree.
  apply andb_true_iff in Hfree as [Hc Ha].
  change (String c a +:+ t) with (String c (a +:+ t)).
  rewrite (strip_keeps _ c (a +:+ t) eq_refl).
  - now rewrite IH.
  - destruct (String.prefix "```" (String c (a +:+ t))) eqn:Hp;
      [|reflexivity].
    apply prefix_fence_leading in Hp. cbn [leading_backticks] in Hp.
    destruct (Ascii.eqb c "`"); [discriminate | lia].
Qed.

(** X19.  A fenced block is unwrapped.  For texts [before], [inside] and
    [after] without backtick, [after] not opening with json, the fence
    removal turns [before ```json inside ``` after] into
    [before inside after]: only the two fences go. *)
Theorem strip_fences_unwraps (before inside after : string) :
  backtick_free before = true ->
  backtick_free inside = true ->
  backtick_free after = true ->
  String.prefix "json" after = false ->
  strip_fences (before +:+ "```json" +:+ inside +:+ "```" +:+ after)
  = before +:+ inside +:+ after.
Proof.
  intros Hb Hi Ha Hj. unfold strip_fences.
  rewrite (strip_past_plain before) by assumption. f_equal.
  assert (Hopen : forall t,
            strip_fences_from 0 ("```json" +:+ t) = strip_fences_from 0 t).
  { intros t.
    change ("```json" +:+ t)
      with (String "`" (String "`" (String "`" (String "j" (String "s"
              (String "o" (String "n" t))))))).
    cbn [strip_fences_from].
    rewrite !prefix_cons, !Ascii.eqb_refl.
    assert (Hnil : String.prefix EmptyString t = true) by now destruct t.
    now rewrite Hnil. }
  rewrite Hopen, (strip_past_plain inside) by assumption. f_equal.
  assert (Hclose : strip_fences_from 0 ("```" +:+ after)
                   = strip_fences_from 0 after).
  { change ("```" +:+ after) with (String "`" (String "`" (String "`" after))).
    cbn [strip_fences_from].
    assert (Hnot : String.prefix "```json"
                     (String "`" (String "`" (String "`" after))) = false).
    { rewrite !prefix_cons, !Ascii.eqb_refl. exact Hj. }
    rewrite Hnot.
    assert (Hyes : String.prefix "```"
                     (String "`" (String "`" (String "`" after))) = true).
    { apply prefix_fence_leading. cbn [leading_backticks].
      rewrite !Ascii.eqb_refl. lia. }
    now rewrite Hyes. }
  rewrite Hclose. clear Hclose Hopen Hj.
  induction after as [|c after IH]; [reflexivity|].
  cbn [backtick_free] in Ha. apply andb_true_iff in Ha as [Hc Ha].
  change (String c after) with (String c EmptyString +:+ after).
  rewrite strip_past_plain by (cbn [backtick_free]; now rewrite Hc).
  now rewrite IH.
Qed.

(* ===================================================================== *)
(** ** Where a new record appears in the listings *)
(* ===================================================================== *)

Section NewestRecord.
Context {A : Type} (cmp : A -> A -> option Z).

Lemma insert_sorted_before_last y acc x :
  comes_after cmp y x = false ->
  insert_sorted cmp y (acc ++ [x]) = insert_sorted cmp y acc ++ [x].
Proof.
  intros Hyx. induction acc as [|a acc IH]; simpl.
  - now rewrite Hyx.
  - destruct (comes_after cmp y a); [now rewrite IH | reflexivity].
Qed.

Lemma js_sort_last l x :
  (forall y, In y l -> comes_after cmp y x = false) ->
  js_sort cmp (l ++ [x]) = js_sort cmp l ++ [x].
Proof.
  induction l as [|a l IH]; intros Hall; [reflexivity|].
  change (js_sort cmp ((a :: l) ++ [x]))
    with (insert_sorted cmp a (js_sort cmp (l ++ [x]))).
  rewrite IH by (intros y Hy; apply Hall; now right).
  rewrite insert_sorted_before_last by (apply Hall; now left).
  reflexivity.
Qed.

Lemma js_sort_first l x :
  (forall y, In y l -> comes_after cmp y x = true) ->
  js_sort cmp (l ++ [x]) = x :: js_sort cmp l.
Proof.
  induction l as [|a l IH]; intros Hall; [reflexivity|].
  change (js_sort cmp ((a :: l) ++ [x]))
    with (insert_sorted cmp a (js_sort cmp (l ++ [x]))).
  rewrite IH by (intros y Hy; apply Hall; now right).
  cbn [insert_sorted]. rewrite Hall by now left. reflexivity.
Qed.

End NewestRecord.

Lemma filter_In_values (p : obj -> bool) m y :
  In y (List.filter p (map_values m)) -> In y (map_values m).
Proof. intros Hy. now apply List.filter_In in Hy. Qed.

(** The listing of a table after a create under a fresh key. *)
Lemma listing_after_create_last (cmp : obj -> obj -> option Z)
    (p : obj -> bool) (m : JsMap obj) k v :
  map_get m k = None ->
  (forall y, In y (map_values m) -> comes_after cmp y v = false) ->
  js_sort cmp (List.filter p (map_values (map_set m k v)))
  = if p v then js_sort cmp (List.filter p (map_values m)) ++ [v]
    else js_sort cmp (List.filter p (map_values m)).
Proof.
  intros Hfresh Hall.
  rewrite map_values_set_fresh, List.filter_app by assumption.
  cbn [List.filter]. destruct (p v).
  - apply js_sort_last. intros y Hy. eapply Hall, filter_In_values, Hy.
  - now rewrite app_nil_r.
Qed.

Lemma listing_after_create_first (cmp : obj -> obj -> option Z)
    (p : obj -> bool) (m : JsMap obj) k v :
  map_get m k = None ->
  (forall y, In y (map_values m) -> comes_after cmp y v = true) ->
  js_sort cmp (List.filter p (map_values (map_set m k v)))
  = if p v then v :: js_sort cmp (List.filter p (map_values m))
    else js_sort cmp (List.filter p (map_values m)).
Proof.
  intros Hfresh Hall.
  rewrite map_values_set_fresh, List.filter_app by assumption.
  cbn [List.filter]. destruct (p v).
  - apply js_sort_first. intros y Hy. eapply Hall, filter_In_values, Hy.
  - now rewrite app_nil_r.
Qed.

Lemma comes_after_oldest_first `{Runtime} (y x : obj) (ty tx : Z) :
  field y "createdAt" = VDate ty ->
  field x "createdAt" = VDate tx ->
  comes_after oldest_first y x = (tx <? ty).
Proof.
  intros Hy Hx. unfold comes_after, oldest_first. rewrite Hy, Hx. simpl.
  destruct (Z.ltb_spec 0 (ty - tx)), (Z.ltb_spec tx ty); lia || reflexivity.
Qed.

Lemma comes_after_newest_first `{Runtime} (y x : obj) (ty tx : Z) :
  field y "createdAt" = VDate ty ->
  field x "createdAt" = VDate tx ->
  comes_after newest_first y x = (ty <? tx).
Proof.
  intros Hy Hx. unfold comes_after, newest_first. rewrite Hy, Hx. simpl.
  destruct (Z.ltb_spec 0 (tx - ty)), (Z.ltb_spec ty tx); lia || reflexivity.
Qed.

Lemma created_at_created (ins : obj) (id : value) (now : Z) :
  field (<["createdAt" := VDate now]> (<["id" := id]> ins)) "createdAt"
  = VDate now.
Proof. unfold field. now rewrite lookup_insert_eq. Qed.

(** X20.  When no stored message is dated later than the clock reading of
    the create, a new chat message closes the conversation it belongs to:
    the listing of its character is the listing before the create followed
    by the new message, and the listing of every other character is
    unchanged. *)
Theorem new_message_is_listed_last `{Runtime} (s : MemStorage) (now : Z)
    (payload : obj) (c : value) :
  bounded s ->
  dated (chatMessages s) = true ->
  (forall m, In m (map_values (chatMessages s)) -> created_at m <= now) ->
  let created := createChatMessage s now payload in
  getChatMessagesByCharacter (fst created) c
  = if strict_eq (field payload "characterId") c
    then getChatMessagesByCharacter s c ++ [snd created]
    else getChatMessagesByCharacter s c.
Proof.
  intros Hb Hd Hold created. subst created.
  pose proof (bounded_fresh s ChatMessage Hb) as Hfresh. simpl in Hfresh.
  unfold getChatMessagesByCharacter, createChatMessage.
  cbn [fst snd chatMessages set_table set_counter].
  rewrite listing_after_create_last; [| assumption |].
  - now rewrite field_created by discriminate.
  - intros y Hy.
    rewrite (comes_after_oldest_first y _ (created_at y) now);
      [| now apply (dated_In (chatMessages s)) | apply created_at_created].
    apply Z.ltb_ge. now apply Hold.
Qed.

(** X21.  When every stored activity log is dated strictly before the clock
    reading of the create, a new log opens the listing of its world: it is
    the first entry, also under every limit [N >= 1], which then keeps only
    the [N - 1] newest of the earlier logs; the listing of every other world
    is unchanged. *)
Theorem new_log_is_listed_first `{Runtime} (s : MemStorage) (now : Z)
    (payload : obj) (w : value) (N : Z) :
  bounded s ->
  dated (activityLogs s) = true ->
  (forall l, In l (map_values (activityLogs s)) -> created_at l < now) ->
  1 <= N ->
  let created := createActivityLog s now payload in
  if strict_eq (field payload "worldId") w
  then getActivityLogsByWorld (fst created) w None
       = snd created :: getActivityLogsByWorld s w None
       /\ getActivityLogsByWorld (fst created) w (Some N)
          = snd created
            :: firstn (Z.to_nat (N - 1)) (getActivityLogsByWorld s w None)
  else forall limit,
         getActivityLogsByWorld (fst created) w limit
         = getActivityLogsByWorld s w limit.
Proof.
  intros Hb Hd Hold HN created. subst created.
  pose proof (bounded_fresh s ActivityLog Hb) as Hfresh. simpl in Hfresh.
  assert (Hlist :
    js_sort newest_first
      (List.filter (fun log => strict_eq (field log "worldId") w)
         (map_values (activityLogs (fst (createActivityLog s now payload)))))
    = if strict_eq (field payload "worldId") w
      then snd (createActivityLog s now payload)
           :: js_sort newest_first
                (List.filter (fun log => strict_eq (field log "worldId") w)
                   (map_values (activityLogs s)))
      else js_sort newest_first
             (List.filter (fun log => strict_eq (field log "worldId") w)
                (map_values (activityLogs s)))).
  { unfold createActivityLog.
    cbn [fst snd activityLogs set_table set_counter].
    rewrite listing_after_create_first; [| assumption |].
    - now rewrite field_created by discriminate.
    - intros y Hy.
      rewrite (comes_after_newest_first y _ (created_at y) now);
        [| now apply (dated_In (activityLogs s)) | apply created_at_created].
      apply Z.ltb_lt. now apply Hold. }
  unfold getActivityLogsByWorld. rewrite Hlist.
  destruct (strict_eq (field payload "worldId") w).
  - split; [reflexivity|].
    destruct (Z.eqb_spec N 0); [lia|]. unfold slice0.
    destruct (Z.ltb_spec N 0); [lia|].
    replace (Z.to_nat N) with (S (Z.to_nat (N - 1))) by lia.
    reflexivity.
  - reflexivity.
Qed.

(** X22.  When every stored scene is dated strictly before the clock
    reading of the create, a new scene opens the listing of its world, and
    the listing of every other world is unchanged. *)
Theorem new_scene_is_listed_first `{Runtime} (s : MemStorage) (now : Z)
    (payload : obj) (w : value) :
  bounded s ->
  dated (scenes s) = true ->
  (forall sc, In sc (map_values (scenes s)) -> created_at sc < now) ->
  let created := createScene s now payload in
  getScenesByWorld (fst created) w
  = if strict_eq (field payload "worldId") w
    then snd created :: getScenesByWorld s w
    else getScenesByWorld s w.
Proof.
  intros Hb Hd Hold created. subst created.
  pose proof (bounded_fresh s Scene Hb) as Hfresh. simpl in Hfresh.
  unfold getScenesByWorld, createScene.
  cbn [fst snd scenes set_table set_counter].
  rewrite listing_after_create_first; [| assumption |].
  - now rewrite field_created by discriminate.
  - intros y Hy.
    rewrite (comes_after_newest_first y _ (created_at y) now);
      [| now apply (dated_In (scenes s)) | apply created_at_created].
    apply Z.ltb_lt. now apply Hold.
Qed.

(* ===================================================================== *)
(** ** Characters of a deleted world *)
(* ===================================================================== *)

Lemma strict_eq_VInt_inj a b : strict_eq (VInt a) (VInt b) = true -> a = b.
Proof.
  unfold strict_eq, VInt. intros Heq. apply Qeq_bool_iff in Heq.
  unfold Qeq in Heq. simpl in Heq. lia.
Qed.

Lemma map_values_delete_key {T} (m : JsMap T) k v :
  In v (map_values (fst (map_delete m k))) ->
  exists j, j <> k /\ In (j, v) m.
Proof.
  unfold map_delete, map_values. cbn [fst]. rewrite in_map_iff.
  intros [[j v'] [Hv Hin]]. simpl in Hv. subst v'.
  apply List.filter_In in Hin as [Hin Hne]. simpl in Hne.
  exists j. split; [|assumption].
  destruct (Z.eqb_spec j k); [discriminate | assumption].
Qed.

(** X23.  DELETE /api/worlds/:id removes the world and nothing else.  In a
    store whose records carry their key in [id], a character of the deleted
    world is still stored and GET /api/characters/:id still finds it, but
    it has left every list: GET /api/characters does not contain it, and
    GET /api/worlds/:id/characters answers 404. *)
Theorem orphaned_characters_are_hidden `{Runtime} (s : MemStorage)
    (id : string) (k : Z) (world : obj) (j : Z) (c : obj) :
  ids_are_keys s ->
  lookup_param (worlds s) id = Some (k, world) ->
  getCharacter s j = Some c ->
  field c "worldId" = VInt k ->
  let out := delete_world s id in
  status (snd out) = 204
  /\ getCharacter (fst out) j = Some c
  /\ status (get_world_characters (fst out) id) = 404
  /\ exists listed,
       get_characters (fst out) = json 200 (VArr listed)
       /\ ~ In (VObj c) listed.
Proof.
  intros Hids Hl Hc Hw out. subst out.
  pose proof (lookup_param_deleted _ _ _ _ Hl) as Hgone.
  pose proof (lookup_param_Some _ _ _ _ Hl) as Hstored.
  assert (Hout : delete_world s id
                 = (set_table World (fst (map_delete (worlds s) k)) s,
                    send 204)).
  { unfold delete_world. rewrite Hl. unfold deleteWorld, map_delete, map_has.
    now rewrite Hstored. }
  rewrite Hout. cbn [fst snd]. split; [reflexivity|]. split; [exact Hc|].
  split.
  { unfold get_world_characters. cbn [worlds set_table].
    now rewrite Hgone. }
  assert (Hlist :
    get_characters (set_table World (fst (map_delete (worlds s) k)) s)
    = json 200
        (VArr (List.map VObj
                 (List.concat
                    (List.map
                       (fun world' =>
                          getCharactersByWorld s (field world' "id"))
                       (List.filter
                          (fun world' =>
                             strict_eq (field world' "userId") (VInt 1))
                          (map_values (fst (map_delete (worlds s) k))))))))).
  { unfold get_characters, getWorldsByUser. cbn [worlds set_table].
    now destruct (List.filter _ _). }
  eexists. split; [exact Hlist|].
  rewrite in_map_iff. intros (c' & [= ->] & Hin).
  apply in_concat in Hin as (l & Hl' & Hin).
  apply in_map_iff in Hl' as (world' & <- & Hworld').
  apply List.filter_In in Hworld' as [Hworld' _].
  apply map_values_delete_key in Hworld' as (j' & Hne & Hpair).
  specialize (Hids World). rewrite List.Forall_forall in Hids.
  specialize (Hids _ Hpair). simpl in Hids.
  apply List.filter_In in Hin as [_ Heq].
  rewrite Hw, Hids in Heq. apply strict_eq_VInt_inj in Heq. congruence.
Qed.

(* ===================================================================== *)
(** ** Which requests leave an activity log *)
(* ===================================================================== *)

Ltac one_log Hlog :=
  intros _; eexists;
  split; [ simpl; now apply map_set_fresh
         | rewrite field_created by discriminate; reflexivity ].


(* ===================================================================== *)
(** ** The further properties on the demo store *)
(* ===================================================================== *)

Lemma create_then_get_witness :
  bounded demo_store
  /\ field (snd (create Character demo_store 7 hero_insert)) "id"
     = VInt (counter Character demo_store)
  /\ map_get (table Character (fst (create Character demo_store 7 hero_insert)))
       (counter Character demo_store)
     = Some (snd (create Character demo_store 7 hero_insert)).
Proof.
  assert (Hb : bounded demo_store)
    by (intros e; destruct e; vm_compute; repeat constructor).
  split; [exact Hb|].
  destruct (create_then_get Character demo_store 7 hero_insert Hb)
    as (Hid & _ & _ & Hget & _).
  split; assumption.
Defined.

Lemma update_with_contained_data_witness :
  let data := object [("name", VStr "Hero")] in
  map_get (table (entity_of UCharacter) hero_store) 4 = Some hero
  /\ data ⊆ hero
  /\ update UCharacter hero_store 4 data = (hero_store, Some hero).
Proof.
  cbv zeta.
  assert (Hold : map_get (table (entity_of UCharacter) hero_store) 4
                 = Some hero) by (vm_compute; reflexivity).
  assert (Hsub : object [("name", VStr "Hero")] ⊆ hero).
  { apply map_subseteq_spec. intros i x Hi. unfold object in Hi.
    simpl in Hi. apply lookup_insert_Some in Hi as [[<- <-] | [_ Hi]].
    - vm_compute. reflexivity.
    - rewrite lookup_empty in Hi. discriminate. }
  split; [exact Hold|]. split; [exact Hsub|].
  exact (update_with_contained_data UCharacter hero_store 4 hero _ Hold Hsub).
Defined.

Lemma created_records_are_listed_witness :
  bounded demo_store
  /\ getCharactersByWorld (fst (createCharacter demo_store 7 hero_insert))
       (VInt 1)
     = getCharactersByWorld demo_store (VInt 1)
       ++ [snd (createCharacter demo_store 7 hero_insert)].
Proof.
  assert (Hb : bounded demo_store)
    by (intros e; destruct e; vm_compute; repeat constructor).
  split; [exact Hb|].
  destruct (created_records_are_listed demo_store 7 hero_insert (VInt 1)
              "nobody" Hb) as (Hlisted & _).
  exact Hlisted.
Defined.

Lemma ids_stay_keys_witness :
  let ops := [CreateCharacter 7 hero_insert] in
  forallb keeps_id ops = true
  /\ map_get (table Character (fst (run (constructor example_clock) ops))) 4
     = Some hero
  /\ field hero "id" = VInt 4.
Proof.
  cbv zeta.
  assert (Hops : forallb keeps_id [CreateCharacter 7 hero_insert] = true)
    by reflexivity.
  assert (Hget : map_get
                   (table Character
                      (fst (run (constructor example_clock)
                              [CreateCharacter 7 hero_insert]))) 4
                 = Some hero) by (vm_compute; reflexivity).
  split; [exact Hops|]. split; [exact Hget|].
  exact (ids_stay_keys example_clock _ Character 4 hero Hops Hget).
Defined.

Lemma messages_and_logs_are_append_only_witness :
  let requests :=
    [ DELETE_world "1";
      POST_generate_character_response 9
        (VObj (object [("characterId", VInt 1)])) ] in
  bounded demo_store
  /\ exists added,
       table ActivityLog
         (fst (@serve example_runtime offline demo_store requests))
       = table ActivityLog demo_store ++ added.
Proof.
  cbv zeta.
  assert (Hb : bounded demo_store)
    by (intros e; destruct e; vm_compute; repeat constructor).
  split; [exact Hb|].
  exact (messages_and_logs_are_append_only (H := example_runtime) offline
           demo_store _ ActivityLog Hb (or_intror eq_refl)).
Defined.





Lemma generate_answers_200_without_service_witness :
  let body := VObj (object [("characterId", VInt 4)]) in
  bounded hero_store
  /\ unreachable offline
  /\ get_prop body "characterId" = Ok (VInt 4)
  /\ truthy (VInt 4) = true
  /\ @parseInt example_runtime (VInt 4) = Some 4
  /\ getCharacter hero_store 4 = Some hero
  /\ snd (@post_generate_character_response example_runtime offline
            hero_store 9 body)
     = json 200 (VObj (object [("message", FALLBACK); ("mood", NEUTRAL)])).
Proof.
  cbv zeta.
  assert (Hb : bounded hero_store)
    by (intros e; destruct e; vm_compute; repeat constructor).
  assert (Hdown : unreachable offline) by (left; reflexivity).
  assert (Hbody : get_prop (VObj (object [("characterId", VInt 4)]))
                    "characterId" = Ok (VInt 4)) by reflexivity.
  assert (Ht : truthy (VInt 4) = true) by reflexivity.
  assert (Hp : @parseInt example_runtime (VInt 4) = Some 4)
    by (vm_compute; reflexivity).
  assert (Hc : getCharacter hero_store 4 = Some hero)
    by (vm_compute; reflexivity).
  do 6 (split; [assumption|]).
  destruct (generate_answers_200_without_service (H := example_runtime)
              offline hero_store 9 _ _ 4 hero Hb Hdown Hbody Ht Hp Hc)
    as (Hresp & _).
  exact Hresp.
Defined.


Lemma strip_fences_unwraps_witness :
  let inside := nl +:+ calm_json +:+ nl in
  backtick_free EmptyString = true
  /\ backtick_free inside = true
  /\ String.prefix "json" EmptyString = false
  /\ strip_fences (EmptyString +:+ "```json" +:+ inside +:+ "```"
                   +:+ EmptyString)
     = EmptyString +:+ inside +:+ EmptyString.
Proof.
  cbv zeta.
  assert (Hnone : backtick_free EmptyString = true) by reflexivity.
  assert (Hin : backtick_free (nl +:+ calm_json +:+ nl) = true)
    by (vm_compute; reflexivity).
  assert (Hj : String.prefix "json" EmptyString = false) by reflexivity.
  do 3 (split; [assumption|]).
  exact (strip_fences_unwraps EmptyString _ EmptyString Hnone Hin Hnone Hj).
Defined.

Lemma new_message_is_listed_last_witness :
  let payload :=
    object [ ("characterId", VInt 1); ("userId", VInt 1);
             ("isUserMessage", VBool true); ("content", VStr "Well met.") ] in
  let created := createChatMessage demo_store 1700000000001 payload in
  bounded demo_store
  /\ dated (chatMessages demo_store) = true
  /\ (forall m, In m (map_values (chatMessages demo_store)) ->
        created_at m <= 1700000000001)
  /\ @getChatMessagesByCharacter example_runtime (fst created) (VInt 1)
     = @getChatMessagesByCharacter example_runtime demo_store (VInt 1)
       ++ [snd created].
Proof.
  cbv zeta.
  assert (Hb : bounded demo_store)
    by (intros e; destruct e; vm_compute; repeat constructor).
  assert (Hd : dated (chatMessages demo_store) = true)
    by (vm_compute; reflexivity).
  assert (Hold : forall m, In m (map_values (chatMessages demo_store)) ->
                   created_at m <= 1700000000001).
  { assert (Hall : forallb (fun m => created_at m <=? 1700000000001)
                     (map_values (chatMessages demo_store)) = true)
      by (vm_compute; reflexivity).
    rewrite forallb_forall in Hall. intros m Hin. apply Z.leb_le.
    exact (Hall m Hin). }
  do 3 (split; [assumption|]).
  exact (new_message_is_listed_last (H := example_runtime) demo_store
           1700000000001
           (object [ ("characterId", VInt 1); ("userId", VInt 1);
                     ("isUserMessage", VBool true);
                     ("content", VStr "Well met.") ])
           (VInt 1) Hb Hd Hold).
Defined.

Lemma new_log_is_listed_first_witness :
  let payload :=
    object [ ("worldId", VInt 1); ("activityType", VStr "WORLD_UPDATED");
             ("entityId", VInt 1); ("description", VStr "Updated world") ] in
  let created := createActivityLog demo_store 1700000000001 payload in
  bounded demo_store
  /\ dated (activityLogs demo_store) = true
  /\ (forall l, In l (map_values (activityLogs demo_store)) ->
        created_at l < 1700000000001)
  /\ 1 <= 2
  /\ @getActivityLogsByWorld example_runtime (fst created) (VInt 1) (Some 2)
     = snd created
       :: firstn (Z.to_nat (2 - 1))
            (@getActivityLogsByWorld example_runtime demo_store (VInt 1) None).
Proof.
  cbv zeta.
  assert (Hb : bounded demo_store)
    by (intros e; destruct e; vm_compute; repeat constructor).
  assert (Hd : dated (activityLogs demo_store) = true)
    by (vm_compute; reflexivity).
  assert (Hold : forall l, In l (map_values (activityLogs demo_store)) ->
                   created_at l < 1700000000001).
  { assert (Hall : forallb (fun l => created_at l <? 1700000000001)
                     (map_values (activityLogs demo_store)) = true)
      by (vm_compute; reflexivity).
    rewrite forallb_forall in Hall. intros l Hin. apply Z.ltb_lt.
    exact (Hall l Hin). }
  assert (HN : 1 <= 2) by lia.
  do 4 (split; [assumption|]).
  pose proof (new_log_is_listed_first (H := example_runtime) demo_store
                1700000000001
                (object [ ("worldId", VInt 1);
                          ("activityType", VStr "WORLD_UPDATED");
                          ("entityId", VInt 1);
                          ("description", VStr "Updated world") ])
                (VInt 1) 2 Hb Hd Hold HN) as Hfirst.
  cbv zeta in Hfirst.
  assert (Hsame : strict_eq
                    (field (object [ ("worldId", VInt 1);
                                     ("activityType", VStr "WORLD_UPDATED");
                                     ("entityId", VInt 1);
                                     ("description", VStr "Updated world") ])
                       "worldId") (VInt 1) = true) by reflexivity.
  rewrite Hsame in Hfirst. exact (proj2 Hfirst).
Defined.

Lemma new_scene_is_listed_first_witness :
  let payload :=
    object [ ("worldId", VInt 1); ("title", VStr "Dawn");
             ("content", VStr "The sun rose over the hills.") ] in
  let created := createScene demo_store 1700000000001 payload in
  bounded demo_store
  /\ dated (scenes demo_store) = true
  /\ (forall sc, In sc (map_values (scenes demo_store)) ->
        created_at sc < 1700000000001)
  /\ @getScenesByWorld example_runtime (fst created) (VInt 1)
     = snd created :: @getScenesByWorld example_runtime demo_store (VInt 1).
Proof.
  cbv zeta.
  assert (Hb : bounded demo_store)
    by (intros e; destruct e; vm_compute; repeat constructor).
  assert (Hd : dated (scenes demo_store) = true)
    by (vm_compute; reflexivity).
  assert (Hold : forall sc, In sc (map_values (scenes demo_store)) ->
                   created_at sc < 1700000000001).
  { assert (Hall : forallb (fun sc => created_at sc <? 1700000000001)
                     (map_values (scenes demo_store)) = true)
      by (vm_compute; reflexivity).
    rewrite forallb_forall in Hall. intros sc Hin. apply Z.ltb_lt.
    exact (Hall sc Hin). }
  do 3 (split; [assumption|]).
  exact (new_scene_is_listed_first (H := example_runtime) demo_store
           1700000000001
           (object [ ("worldId", VInt 1); ("title", VStr "Dawn");
                     ("content", VStr "The sun rose over the hills.") ])
           (VInt 1) Hb Hd Hold).
Defined.

Lemma orphaned_characters_are_hidden_witness :
  let world := default ∅ (getWorld demo_store 1) in
  let c := default ∅ (getCharacter demo_store 1) in
  let out := @delete_world example_runtime demo_store "1" in
  ids_are_keys demo_store
  /\ @lookup_param example_runtime (worlds demo_store) "1" = Some (1, world)
  /\ getCharacter demo_store 1 = Some c
  /\ field c "worldId" = VInt 1
  /\ status (snd out) = 204
  /\ getCharacter (fst out) 1 = Some c
  /\ status (@get_world_characters example_runtime (fst out) "1") = 404.
Proof.
  cbv zeta.
  assert (Hids : ids_are_keys demo_store)
    by apply constructor_ids_are_keys.
  assert (Hl : @lookup_param example_runtime (worlds demo_store) "1"
               = Some (1, default ∅ (getWorld demo_store 1)))
    by (vm_compute; reflexivity).
  assert (Hc : getCharacter demo_store 1
               = Some (default ∅ (getCharacter demo_store 1)))
    by (vm_compute; reflexivity).
  assert (Hw : field (default ∅ (getCharacter demo_store 1)) "worldId"
               = VInt 1) by (vm_compute; reflexivity).
  do 4 (split; [assumption|]).
  destruct (orphaned_characters_are_hidden (H := example_runtime) demo_store
              "1" 1 _ 1 _ Hids Hl Hc Hw)
    as (Hst & Hkept & Hgone & _).
  repeat apply conj; assumption.
Defined.

